(** * Composite Wagner pressure on an impacted plate

    A shallow embedding of the MATLAB function [wagner_pressure]

      function [rs, ps, pmax] = wagner_pressure(sigmas, t, s, sdot, sddot, eps)

    and of the statements made about it.

    The function works on MATLAB double scalars, which are promoted to
    complex values as soon as a square root meets a negative argument.  The
    embedding is written once over an interface of the numeric built-ins the
    function calls ([MatlabNum]), so that what is proved about the slicing
    of the sample vector holds for every arithmetic; statements about
    values are then proved for exact complex arithmetic over the reals
    (instance [exact]), the idealisation the closed forms are written in.

    Two scripts of the repository are embedded beside it: the MATLAB
    script [force_comparison.m], which prepares the time samples of the
    stationary plate and plots the force data (module [ForceComparison]),
    and the plain C of the Basilisk script [droplet_impact.c], its derived
    constants and its numbered output files (module [DropletImpact]). *)

From Stdlib Require Import List Sorted Bool Arith ZArith QArith Lia.
From Stdlib Require Import Reals Qreals Lra.
From Stdlib Require Lqa Ascii String.
Import ListNotations.

Set Implicit Arguments.

(** ** Calls that can fail

    The body of [wagner_pressure] has no [error] statement and no
    [try]/[catch].  What can stop a call are the run-time errors of the
    built-ins it uses: a subscript out of range and an element-wise
    operation on vectors of different lengths.  [DomainError] and
    [ConvergenceError] are the two failures the specification names; no
    statement of the source raises them. *)

Inductive error : Type :=
| BadSubscript
| IndexExceedsBounds
| SizeMismatch
| DomainError
| ConvergenceError.

Inductive outcome (A : Type) : Type :=
| Returned (a : A)
| Raised (e : error).

Arguments Returned {A} a.
Arguments Raised {A} e.

Definition bind {A B : Type} (m : outcome A) (k : A -> outcome B) : outcome B :=
  match m with
  | Returned a => k a
  | Raised e => Raised e
  end.

Declare Scope matlab_monad_scope.
Delimit Scope matlab_monad_scope with mm.
Notation "x <- m ;; k" := (bind m (fun x => k))
  (at level 61, m at next level, right associativity) : matlab_monad_scope.

(** ** Vectors

    A MATLAB vector is a list; subscripts start at 1. *)

Section Vectors.
Variable A : Type.

(** [find(mask)]: the subscripts of the true entries, in increasing order. *)
Fixpoint find_from (i : nat) (mask : list bool) : list nat :=
  match mask with
  | [] => []
  | b :: mask' => (if b then [i] else []) ++ find_from (S i) mask'
  end.

Definition find (mask : list bool) : list nat := find_from 1 mask.

(** [v(i)] for one subscript. *)
Definition subsref1 (v : list A) (i : nat) : outcome A :=
  match i with
  | O => Raised BadSubscript
  | S k => match nth_error v k with
           | Some a => Returned a
           | None => Raised IndexExceedsBounds
           end
  end.

(** [v(idxs)] for a vector of subscripts. *)
Fixpoint subsref (v : list A) (idxs : list nat) : outcome (list A) :=
  match idxs with
  | [] => Returned []
  | i :: idxs' =>
      (a <- subsref1 v i ;;
       r <- subsref v idxs' ;;
       Returned (a :: r))%mm
  end.

(** An element-wise binary operation on two vectors: equal lengths pair
    up, a vector of length one is expanded, anything else is an error. *)
Definition elementwise (op : A -> A -> A) (u v : list A) : outcome (list A) :=
  if Nat.eqb (length u) (length v)
  then Returned (map (fun p => op (fst p) (snd p)) (combine u v))
  else match u, v with
       | [a], _ => Returned (map (op a) v)
       | _, [b] => Returned (map (fun x => op x b) u)
       | _, _ => Raised SizeMismatch
       end.
End Vectors.

(** ** The numeric built-ins *)

Module Matlab.

(** The scalar operations the function uses.  [*], [.*] are [times], [/],
    [./] are [rdivide] and [^], [.^] are [power]: on scalars the matrix
    and the element-wise operator coincide.  [gt] is the relational
    operator [>], which compares real parts. *)
Class MatlabNum (C : Type) : Type := {
  lit : Q -> C;
  pi : C;
  plus : C -> C -> C;
  minus : C -> C -> C;
  times : C -> C -> C;
  rdivide : C -> C -> C;
  power : C -> C -> C;
  uminus : C -> C;
  sqrt : C -> C;
  log : C -> C;
  real : C -> C;
  gt : C -> C -> bool
}.

Declare Scope matlab_scope.
Delimit Scope matlab_scope with mat.
Notation "x + y" := (plus x y) : matlab_scope.
Notation "x - y" := (minus x y) : matlab_scope.
Notation "x * y" := (times x y) : matlab_scope.
Notation "x / y" := (rdivide x y) : matlab_scope.
Notation "x ^ y" := (power x y) : matlab_scope.
Notation "- x" := (uminus x) : matlab_scope.
Notation "x > y" := (gt x y) : matlab_scope.

(** What [fsolve] hands back: the last iterate, the residual there and the
    exit flag (positive when the solver converged, zero or negative when it
    stopped for another reason, such as the iteration limit). *)
Record fsolve_out (C : Type) : Type := {
  x : C;
  fval : C;
  exitflag : Z
}.

Section Wagner.
Context {C : Type} {num : MatlabNum C}.
Local Open Scope matlab_scope.

(** An integer literal. *)
Definition int (z : Z) : C := lit (inject_Z z).
Local Notation "$ z" := (int z%Z) (at level 1, format "$ z").

(** [fsolve] belongs to the Optimization Toolbox, not to the
    repository: it is a parameter. *)
Variable fsolve : (C -> C) -> C -> fsolve_out C.

(** The scalars and the anonymous functions of the body.  The anonymous
    functions capture [d], [ddot], [dddot], [J] and [eps]; their second
    argument, [t] in the source, is not used by their bodies. *)
Section Closures.
Variables t s sdot sddot eps : C.

(** Turnover point *)
Definition d : C := sqrt ($3 * (t - s)).
Definition ddot : C := (sqrt $3 / $2) * ($1 - sdot) / sqrt (t - s).
Definition dddot : C :=
  - (sqrt $3 / $4) * (($1 - sdot) ^ $2 + $2 * (t - s) * sddot)
  / (t - s) ^ ($3 / $2).

(** Jet thickness *)
Definition J : C := $2 * (t - s) ^ ($3 / $2) / (sqrt $3 * pi).

(** Outer solution *)
Definition outer_p (rhat t' : C) : C :=
  ($1 / eps)
  * ($4 * ($2 * d ^ $2 - rhat ^ $2) * ddot ^ $2 / ($3 * pi * sqrt (d ^ $2 - rhat ^ $2))
     + $4 * d * dddot * sqrt (d ^ $2 - rhat ^ $2) / ($3 * pi)).

(** Inner solution *)
Definition tilde_r (sigma t' : C) : C :=
  - (J / pi) * (sigma + $4 * sqrt sigma + log sigma + $1).
Definition inner_r (sigma t' : C) : C := eps * d + eps ^ $3 * tilde_r sigma t'.
Definition inner_p (sigma t' : C) : C :=
  ($1 / eps ^ $2) * $2 * ddot ^ $2 * sqrt sigma / ($1 + sqrt sigma) ^ $2.

(** Overlap solution *)
Definition overlap (r t' : C) : C :=
  $2 * sqrt $2 * d ^ ($3 / $2) * ddot ^ $2
  / ($3 * pi * eps ^ $2 * sqrt (d / eps ^ $2 - r / eps ^ $3)).
End Closures.

(** Maximum pressure: the function whose zero is looked for, the seed, the
    value the solver returns from it, and the pressure taken there. *)
Definition zero_fun (sigma : C) : C := sigma + $4 * sqrt sigma + log sigma + $1.

Definition seed : C := lit (233 # 10000).

Definition sigma_max : C := x (fsolve zero_fun seed).

Definition pmax (t s sdot sddot eps : C) : C :=
  real (inner_p t s sdot eps sigma_max t
        + outer_p t s sdot sddot eps (inner_r t s eps sigma_max t / eps) t
        - overlap t s sdot eps (inner_r t s eps sigma_max t / eps) t).

(** The variables of the function when it returns.  [sigmas] is the
    argument after it has been overwritten by [sigmas(pos_idxs)]. *)
Record workspace : Type := {
  ws_all_rs : list C;
  ws_pos_idxs : list nat;
  ws_rs : list C;
  ws_sigmas : list C;
  ws_ps : list C;
  ws_sigma_max : C;
  ws_pmax : C
}.

(** The body of the function.  An anonymous function applied to a vector
    is applied to each of its elements: its body only combines the vector
    with scalars, element by element.  The sum and the difference in the
    line of [ps] combine vectors that were sliced separately. *)
Definition wagner_body (sigmas : list C) (t s sdot sddot eps : C) : outcome workspace :=
  let all_rs := map (fun sigma => inner_r t s eps sigma t) sigmas in
  let pos_idxs := find (map (fun r => r > $0) all_rs) in
  (rs <- subsref all_rs pos_idxs ;;
   sigmas <- subsref sigmas pos_idxs ;;
   sum <- elementwise plus
            (map (fun sigma => inner_p t s sdot eps sigma t) sigmas)
            (map (fun rhat => outer_p t s sdot sddot eps rhat t) (map (fun r => r / eps) rs)) ;;
   diff <- elementwise minus sum (map (fun r => overlap t s sdot eps r t) rs) ;;
   let ps := map real diff in
   Returned {| ws_all_rs := all_rs; ws_pos_idxs := pos_idxs; ws_rs := rs;
               ws_sigmas := sigmas; ws_ps := ps;
               ws_sigma_max := sigma_max;
               ws_pmax := pmax t s sdot sddot eps |})%mm.

(** The call [[rs, ps, pmax] = wagner_pressure(sigmas, t, s, sdot, sddot, eps)]. *)
Definition wagner_pressure (sigmas : list C) (t s sdot sddot eps : C)
  : outcome (list C * list C * C) :=
  (w <- wagner_body sigmas t s sdot sddot eps ;;
   Returned (ws_rs w, ws_ps w, ws_pmax w))%mm.

(** The composite pressure of one sample, as the line of [ps] computes it. *)
Definition composite (t s sdot sddot eps sigma : C) : C :=
  real (inner_p t s sdot eps sigma t
        + outer_p t s sdot sddot eps (inner_r t s eps sigma t / eps) t
        - overlap t s sdot eps (inner_r t s eps sigma t) t).

(** The samples the function keeps. *)
Definition retained (t s eps : C) (sigmas : list C) : list C :=
  filter (fun sigma => inner_r t s eps sigma t > $0) sigmas.
End Wagner.

End Matlab.

(** ** Exact complex arithmetic

    The numbers of the closed forms: complex numbers over the reals, with
    the principal branches MATLAB takes for [sqrt], [log] and [.^].  There
    is neither rounding nor [Inf] or [NaN]: where MATLAB would produce
    them (a division by zero, the logarithm of zero) the operations below
    follow the total functions of the real-number library; the
    statements below keep away from such values, or say so. *)

Open Scope R_scope.

Record complex : Type := Cplx { re : R; im : R }.

Definition RtoC (a : R) : complex := Cplx a 0.

Definition cplus (z w : complex) : complex :=
  Cplx (re z + re w) (im z + im w).

Definition cminus (z w : complex) : complex :=
  Cplx (re z - re w) (im z - im w).

Definition ctimes (z w : complex) : complex :=
  Cplx (re z * re w - im z * im w) (re z * im w + im z * re w).

Definition crdivide (z w : complex) : complex :=
  Cplx ((re z * re w + im z * im w) / (re w * re w + im w * im w))
       ((im z * re w - re z * im w) / (re w * re w + im w * im w)).

Definition cuminus (z : complex) : complex := Cplx (- re z) (- im z).

Definition cabs (z : complex) : R := sqrt (re z * re z + im z * im z).

(** The principal square root: non-negative real part, and the sign of the
    imaginary part follows that of the argument.  On the negative real
    axis it is [i * sqrt (- a)]. *)
Definition csqrt (z : complex) : complex :=
  Cplx (sqrt ((cabs z + re z) / 2))
       ((if Rlt_dec (im z) 0 then -1 else 1) * sqrt ((cabs z - re z) / 2)).

(** The principal argument, in the interval from [- PI] (excluded) to [PI]. *)
Definition cangle (z : complex) : R :=
  if Rlt_dec 0 (re z) then atan (im z / re z)
  else if Rlt_dec (re z) 0 then
         (if Rlt_dec (im z) 0 then atan (im z / re z) - PI else atan (im z / re z) + PI)
  else if Rlt_dec 0 (im z) then PI / 2
  else if Rlt_dec (im z) 0 then - (PI / 2)
  else 0.

Definition clog (z : complex) : complex := Cplx (ln (cabs z)) (cangle z).

Definition cexp (z : complex) : complex :=
  Cplx (exp (re z) * cos (im z)) (exp (re z) * sin (im z)).

Definition is_zero (z : complex) : bool :=
  if Req_EM_T (re z) 0 then (if Req_EM_T (im z) 0 then true else false) else false.

(** [z .^ w], through the principal logarithm.  [0 .^ w] is 1 for
    [w = 0] and 0 otherwise (MATLAB has [Inf] for a negative exponent). *)
Definition cpower (z w : complex) : complex :=
  if is_zero z then (if is_zero w then RtoC 1 else RtoC 0)
  else cexp (ctimes w (clog z)).

Definition creal (z : complex) : complex := RtoC (re z).

Definition cgt (z w : complex) : bool :=
  if Rlt_dec (re w) (re z) then true else false.

#[export] Instance exact : Matlab.MatlabNum complex := {|
  Matlab.lit := fun q => RtoC (Q2R q);
  Matlab.pi := RtoC PI;
  Matlab.plus := cplus;
  Matlab.minus := cminus;
  Matlab.times := ctimes;
  Matlab.rdivide := crdivide;
  Matlab.power := cpower;
  Matlab.uminus := cuminus;
  Matlab.sqrt := csqrt;
  Matlab.log := clog;
  Matlab.real := creal;
  Matlab.gt := cgt
|}.

(** A value is real when its imaginary part is zero ([isreal]). *)
Definition isreal (z : complex) : Prop := im z = 0.

(** ** The closed forms of the specification

    Real-valued, written from the sentences of the specification, to be
    compared with what the source computes. *)

Definition spec_d (t s : R) : R := sqrt (3 * (t - s)).

Definition spec_ddot (t s sdot : R) : R := sqrt 3 / 2 * (1 - sdot) / sqrt (t - s).

Definition spec_dddot (t s sdot sddot : R) : R :=
  - (sqrt 3 / 4) * ((1 - sdot) ^ 2 + 2 * (t - s) * sddot) / Rpower (t - s) (3 / 2).

Definition spec_J (t s : R) : R := 2 * Rpower (t - s) (3 / 2) / (sqrt 3 * PI).

Definition spec_tilde_r (t s sigma : R) : R :=
  - (spec_J t s / PI) * (sigma + 4 * sqrt sigma + ln sigma + 1).

Definition spec_inner_r (t s eps sigma : R) : R :=
  eps * spec_d t s + eps ^ 3 * spec_tilde_r t s sigma.

Definition spec_inner_p (t s sdot eps sigma : R) : R :=
  1 / eps ^ 2 * 2 * spec_ddot t s sdot ^ 2 * sqrt sigma / (1 + sqrt sigma) ^ 2.

Definition spec_zero_fun (sigma : R) : R := sigma + 4 * sqrt sigma + ln sigma + 1.

(** ** Two solvers

    [fsolve] is a parameter of the embedding.  A solver that stops at once,
    because its iteration budget is spent, hands back the seed with exit
    flag 0; a solver that reports convergence hands back 0.1, which is
    within 0.01 of the zero, with exit flag 1. *)

Definition fsolve_stalled (f : complex -> complex) (x0 : complex)
  : Matlab.fsolve_out complex :=
  {| Matlab.x := x0; Matlab.fval := f x0; Matlab.exitflag := 0%Z |}.

Definition fsolve_located (f : complex -> complex) (x0 : complex)
  : Matlab.fsolve_out complex :=
  {| Matlab.x := RtoC (1 / 10);
     Matlab.fval := f (RtoC (1 / 10));
     Matlab.exitflag := 1%Z |}.

(** ** The force comparison script

    [force_comparison.m] is a script: it builds the time samples of the
    stationary plate solution, reads one data file per value of [beta] and
    plots column 3 of each against its shifted column 1, in a grey level
    that depends on the position of the value in [betas].  Its arithmetic
    is taken over the rationals.  What [dlmread] returns for a file is an
    input of the model; [plot] is modelled by what it is given. *)

Module ForceComparison.
Local Open Scope Q_scope.

(** [linspace(a, b, n)]: [n] evenly spaced points from [a] to [b]; the
    single point of [linspace(a, b, 1)] is [b]. *)
Definition linspace (a b : Q) (n : nat) : list Q :=
  match n with
  | O => []
  | S O => [b]
  | S n1 =>
      map (fun i => a + inject_Z (Z.of_nat i) * (b - a) / inject_Z (Z.of_nat n1)) (seq 0 n)
  end.

(** [zeros(size(v))] *)
Definition zeros (v : list Q) : list Q := map (fun _ => 0) v.

(** A numeric matrix, as [dlmread] returns it: rectangular, with entries
    by row and column (counted from 0 here). *)
Record matrix : Type := {
  nrows : nat;
  ncols : nat;
  entry : nat -> nat -> Q
}.

(** [M(:, j)] *)
Definition column (M : matrix) (j : nat) : outcome (list Q) :=
  match j with
  | O => Raised BadSubscript
  | S j0 =>
      if Nat.leb j (ncols M)
      then Returned (map (fun i => entry M i j0) (seq 0 (nrows M)))
      else Raised IndexExceedsBounds
  end.

(** What one call of [plot] draws. *)
Record series : Type := {
  xdata : list Q;
  ydata : list Q;
  color : list Q
}.

(** [plot(x, y, ..., 'color', c)]: the vectors must have one length. *)
Definition plot (x y c : list Q) : outcome series :=
  if Nat.eqb (length x) (length y)
  then Returned {| xdata := x; ydata := y; color := c |}
  else Raised SizeMismatch.

(** Range of the values of beta *)
Definition betas : list Q := [0; 707 # 100; 2828 # 100; 14142 # 100].

(** Parameters *)
Definition eps : Q := 1.
Definition initial_drop_heights : Q := 125 # 1000.
Definition impact_time : Q := initial_drop_heights.
Definition t_max : Q := 8 # 10.

(** Stationary plate Wagner solution: the samples handed to
    [composite_force]. *)
Definition wagner_t : list Q := linspace (1 # 10000000) (t_max - impact_time) 1000.
Definition s : list Q := zeros wagner_t.
Definition sdot : list Q := zeros wagner_t.
Definition sddot : list Q := zeros wagner_t.

(** The limits of the time axis, [xlim([-impact_time t_max - impact_time])]. *)
Definition xlim : Q * Q := (- impact_time, t_max - impact_time).

(** The grey levels.  [N] is the number of data directories, one per
    value of beta. *)
Section LineColours.
Variable N : nat.
Variables start_color end_color : Q.

Definition m : Q := (end_color - start_color) / (inject_Z (Z.of_nat N) - 1).
Definition c : Q :=
  (1 # 2) * (start_color + end_color - (inject_Z (Z.of_nat N) + 1) * m).
Definition line_color (k : nat) : list Q :=
  map (fun x => (m * inject_Z (Z.of_nat k) + c) * x) [1; 1; 1].
End LineColours.

Definition N : nat := length betas.
Definition start_color : Q := 75 # 100.
Definition end_color : Q := 3 # 10.

(** The body of the loop over the data directories, for the [k]-th
    directory and the matrix read from its file. *)
Definition loop_body (k : nat) (output_mat : matrix) : outcome series :=
  (let line_color := line_color N start_color end_color k in
   ts <- column output_mat 1 ;;
   Fs <- column output_mat 3 ;;
   ss <- column output_mat 6 ;;
   let ts := map (fun t => t - impact_time) ts in
   plot ts Fs line_color)%mm.

(** The block that plots the data of the stationary plate, in black. *)
Definition stationary_plot (output_mat : matrix) : outcome series :=
  (ts <- column output_mat 1 ;;
   let ts := map (fun t => t - impact_time) ts in
   Fs <- column output_mat 3 ;;
   plot ts Fs [0; 0; 0])%mm.

(** The loop: one matrix per directory, in the order of [betas]; the first
    error stops the script. *)
Fixpoint loop_from (k : nat) (mats : list matrix) : outcome (list series) :=
  match mats with
  | [] => Returned []
  | M :: mats' =>
      (p <- loop_body k M ;;
       ps <- loop_from (S k) mats' ;;
       Returned (p :: ps))%mm
  end.

End ForceComparison.

(** ** The simulation script

    [droplet_impact.c] is a Basilisk script.  What is modelled here is the
    part written in plain C: the constants [main] derives from
    [parameters.h], and the three output events, which number the files
    they write with global counters.  Real numbers are taken as
    rationals.  A computation whose behaviour C leaves undefined (an
    [int] that overflows, a [sprintf] past the end of its buffer) has no
    result. *)

Module DropletImpact.
Import Ascii String.
Local Open Scope Q_scope.

(** *** [parameters.h] *)
Definition RHO_R : Q := 3 # 1000.
Definition MU_R : Q := 2 # 1000.
Definition REYNOLDS : Q := 1000.
Definition WEBER : Q := 1000.
Definition FR : Q := 101 # 10.
Definition DROP_VEL : Q := - (1).
Definition DROP_RADIUS : Q := 1.
Definition INTITIAL_DROP_HEIGHT : Q := 2 # 10.
Definition MINLEVEL : Z := 4.
Definition MAXLEVEL : Z := 12.
Definition BOX_WIDTH : Q := 4.

(** [min(a, b)], the macro [((a) < (b) ? (a) : (b))]. *)
Definition min (a b : Q) : Q := if Qlt_le_dec a b then a else b.

(** *** The constants derived in [main]

    [DROP_CENTRE], [PLATE_THICKNESS] and [HARD_MAX_TIME] are used by the
    script and not defined by the header at hand: they are parameters. *)
Section Main.
Variables DROP_CENTRE PLATE_THICKNESS HARD_MAX_TIME : Q.

Definition MIN_CELL_SIZE : Q := BOX_WIDTH / inject_Z (2 ^ MAXLEVEL).
Definition PLATE_REFINED_WIDTH : Q := (3 # 10) * PLATE_THICKNESS.
Definition DROP_REFINED_WIDTH : Q := 5 # 100.
Definition IMPACT_TIME : Q := (DROP_CENTRE - DROP_RADIUS) / (- DROP_VEL).
Definition INTERPOLATE_DISTANCE : Q := MIN_CELL_SIZE.
Definition wagner_max_time : Q := (15 # 10) * (IMPACT_TIME + 1 / 3).
Definition MAX_TIME : Q := min HARD_MAX_TIME wagner_max_time.
End Main.

(** *** The event [init]

    [sq(x)] is the macro [((x)*(x))]. *)
Definition sq (x : Q) : Q := x * x.

Definition Qlt_bool (a b : Q) : bool := negb (Qle_bool b a).

Section Init.
Variable DROP_CENTRE : Q.

(** The condition handed to [refine] around the droplet, at a point
    [(x, y)] of a cell of the given level. *)
Definition refine_condition (x y : Q) (level : Z) : bool :=
  Qlt_bool (sq (x - DROP_CENTRE) + sq y) (sq (DROP_RADIUS + DROP_REFINED_WIDTH))
  && Qlt_bool (sq (DROP_RADIUS - DROP_REFINED_WIDTH)) (sq (x - DROP_CENTRE) + sq y)
  && (level <? MAXLEVEL)%Z.

(** The function handed to [fraction]: the droplet is where it is
    positive, its surface where it vanishes. *)
Definition droplet_function (x y : Q) : Q :=
  - sq (x - DROP_CENTRE) - sq y + sq DROP_RADIUS.
End Init.

(** *** [int] and [sprintf] *)
Definition INT_MAX : Z := 2147483647.

(** [n++] on an [int]. *)
Definition incr (n : Z) : option Z :=
  if (n <? INT_MAX)%Z then Some (n + 1)%Z else None.

Definition digit_char (d : Z) : ascii := ascii_of_nat (48 + Z.to_nat d).

(** The decimal digits of a non-negative number, most significant first,
    in front of [acc]; ten digits are enough for an [int]. *)
Fixpoint digits (fuel : nat) (n : Z) (acc : string) : string :=
  match fuel with
  | O => acc
  | S fuel' =>
      let acc' := String (digit_char (n mod 10)) acc in
      if (n / 10 =? 0)%Z then acc' else digits fuel' (n / 10) acc'
  end.

(** What ["%d"] prints for an [int]. *)
Definition decimal (n : Z) : string :=
  if (n <? 0)%Z then String "-" (digits 10 (- n) "") else digits 10 n "".

(** [sprintf(buffer, "<pre>%d<post>", n)] into a buffer of [size]
    characters: the text and its terminating zero must fit. *)
Definition sprintf_d (size : nat) (pre : string) (n : Z) (post : string) : option string :=
  let text := (pre ++ decimal n ++ post)%string in
  if Nat.ltb (String.length text) size then Some text else None.

(** The number a string of decimal digits stands for, continuing from
    [v]; it reads back what [digits] prints. *)
Definition digit_val (ch : ascii) : Z := (Z.of_nat (nat_of_ascii ch) - 48)%Z.

Fixpoint parse_from (v : Z) (str : string) : Z :=
  match str with
  | EmptyString => v
  | String ch str' => parse_from (10 * v + digit_val ch)%Z str'
  end.

(** *** The output events *)
Record globals : Type := {
  gfs_output_no : Z;
  plate_output_no : Z;
  interface_output_no : Z
}.

(** The global variables and the names of the files opened for writing,
    latest first. *)
Record state : Type := {
  vars : globals;
  files : list string
}.

Definition initial : state :=
  {| vars := {| gfs_output_no := 1; plate_output_no := 1; interface_output_no := 1 |};
     files := [] |}.

Definition obind {A B : Type} (m : option A) (k : A -> option B) : option B :=
  match m with
  | Some a => k a
  | None => None
  end.

Section Events.
(** The output window, two more macros that the header at hand does not
    define. *)
Variables START_OUTPUT_TIME END_OUTPUT_TIME : Q.

(** [(t >= START_OUTPUT_TIME) && (t <= END_OUTPUT_TIME)] *)
Definition in_window (t : Q) : bool :=
  Qle_bool START_OUTPUT_TIME t && Qle_bool t END_OUTPUT_TIME.

Definition output_interface (t : Q) (st : state) : option state :=
  if in_window t then
    obind (sprintf_d 80 "interface_" (interface_output_no (vars st)) ".txt")
      (fun interface_filename =>
    obind (incr (interface_output_no (vars st)))
      (fun no =>
    Some {| vars := {| gfs_output_no := gfs_output_no (vars st);
                       plate_output_no := plate_output_no (vars st);
                       interface_output_no := no |};
            files := interface_filename :: files st |}))
  else Some st.

Definition output_values_along_plate (t : Q) (st : state) : option state :=
  if in_window t then
    obind (sprintf_d 80 "plate_output_" (plate_output_no (vars st)) ".txt")
      (fun plate_output_filename =>
    obind (incr (plate_output_no (vars st)))
      (fun no =>
    Some {| vars := {| gfs_output_no := gfs_output_no (vars st);
                       plate_output_no := no;
                       interface_output_no := interface_output_no (vars st) |};
            files := plate_output_filename :: files st |}))
  else Some st.

Definition gfs_output (t : Q) (st : state) : option state :=
  if in_window t then
    obind (sprintf_d 80 "gfs_output_" (gfs_output_no (vars st)) ".gfs")
      (fun gfs_filename =>
    obind (incr (gfs_output_no (vars st)))
      (fun no =>
    Some {| vars := {| gfs_output_no := no;
                       plate_output_no := plate_output_no (vars st);
                       interface_output_no := interface_output_no (vars st) |};
            files := gfs_filename :: files st |}))
  else Some st.

(** The events in the order in which the solver fires them. *)
Inductive event : Type :=
| OutputInterface (t : Q)
| OutputValuesAlongPlate (t : Q)
| GfsOutput (t : Q).

Definition fire (e : event) (st : state) : option state :=
  match e with
  | OutputInterface t => output_interface t st
  | OutputValuesAlongPlate t => output_values_along_plate t st
  | GfsOutput t => gfs_output t st
  end.

Fixpoint run (schedule : list event) (st : state) : option state :=
  match schedule with
  | [] => Some st
  | e :: schedule' => obind (fire e st) (run schedule')
  end.

(** How many firings of a schedule fall in the output window, per event. *)
Definition writes_interface (e : event) : bool :=
  match e with OutputInterface t => in_window t | _ => false end.
Definition writes_plate (e : event) : bool :=
  match e with OutputValuesAlongPlate t => in_window t | _ => false end.
Definition writes_gfs (e : event) : bool :=
  match e with GfsOutput t => in_window t | _ => false end.

Definition interface_writes (schedule : list event) : nat :=
  List.length (filter writes_interface schedule).
Definition plate_writes (schedule : list event) : nat :=
  List.length (filter writes_plate schedule).
Definition gfs_writes (schedule : list event) : nat :=
  List.length (filter writes_gfs schedule).
End Events.

(** The names the three events give to their files. *)
Definition interface_name (i : Z) : string := ("interface_" ++ decimal i ++ ".txt")%string.
Definition plate_output_name (i : Z) : string :=
  ("plate_output_" ++ decimal i ++ ".txt")%string.
Definition gfs_name (i : Z) : string := ("gfs_output_" ++ decimal i ++ ".gfs")%string.

(** A file name is accounted for when one of the counters has passed it. *)
Definition accounted (g : globals) (name : string) : Prop :=
  (exists i, (1 <= i < interface_output_no g)%Z /\ name = interface_name i)
  \/ (exists i, (1 <= i < plate_output_no g)%Z /\ name = plate_output_name i)
  \/ (exists i, (1 <= i < gfs_output_no g)%Z /\ name = gfs_name i).

(** The invariant of the output events. *)
Definition consistent (st : state) : Prop :=
  (1 <= interface_output_no (vars st) <= INT_MAX)%Z
  /\ (1 <= plate_output_no (vars st) <= INT_MAX)%Z
  /\ (1 <= gfs_output_no (vars st) <= INT_MAX)%Z
  /\ NoDup (files st)
  /\ (forall name, In name (files st) <-> accounted (vars st) name).

End DropletImpact.

(** * Facts about vectors *)

Section VectorFacts.
Variable A : Type.

(** The entries a mask selects. *)
Lemma select_map_filter (q : A -> bool) (l : list A) :
  map snd (filter fst (combine (map q l) l)) = filter q l.
Proof.
  induction l as [|a l IH]; simpl; [reflexivity|].
  destruct (q a); simpl; now rewrite IH.
Qed.

Lemma filter_map_comm (B : Type) (f : A -> B) (p : B -> bool) (l : list A) :
  filter p (map f l) = map f (filter (fun a => p (f a)) l).
Proof.
  induction l as [|a l IH]; simpl; [reflexivity|].
  destruct (p (f a)); simpl; now rewrite IH.
Qed.

Lemma nth_error_middle (pre v : list A) (a : A) :
  nth_error (pre ++ a :: v) (length pre) = Some a.
Proof.
  rewrite nth_error_app2 by lia. now rewrite Nat.sub_diag.
Qed.

(** Slicing a vector with the subscripts [find] returns for a mask of its
    own length never leaves the vector, and selects the masked entries in
    their order. *)
Lemma subsref_find_from (mask : list bool) :
  forall (pre v : list A),
    length mask = length v ->
    subsref (pre ++ v) (find_from (S (length pre)) mask)
    = Returned (map snd (filter fst (combine mask v))).
Proof.
  induction mask as [|b mask IH]; intros pre v Hlen.
  - reflexivity.
  - destruct v as [|a v]; [discriminate|].
    injection Hlen as Hlen.
    assert (Hrest : subsref (pre ++ a :: v) (find_from (S (S (length pre))) mask)
                    = Returned (map snd (filter fst (combine mask v)))).
    { specialize (IH (pre ++ [a]) v Hlen).
      rewrite <- app_assoc in IH. simpl in IH.
      rewrite length_app in IH. simpl in IH.
      rewrite Nat.add_1_r in IH. exact IH. }
    destruct b; simpl.
    + rewrite nth_error_middle. simpl. rewrite Hrest. reflexivity.
    + exact Hrest.
Qed.

Lemma subsref_find (v : list A) (mask : list bool) :
  length mask = length v ->
  subsref v (find mask) = Returned (map snd (filter fst (combine mask v))).
Proof.
  intros Hlen. exact (subsref_find_from mask [] v Hlen).
Qed.

(** What a successful slice contains. *)
Lemma subsref_spec (v : list A) (idxs : list nat) :
  forall r, subsref v idxs = Returned r ->
    length r = length idxs /\
    forall k i, nth_error idxs k = Some i ->
      exists j, i = S j /\ nth_error r k = nth_error v j /\ nth_error v j <> None.
Proof.
  induction idxs as [|i idxs IH]; intros r Hr; simpl in Hr.
  - injection Hr as <-. split; [reflexivity|]. intros [|k] i' H; discriminate.
  - destruct i as [|j]; [discriminate|]. simpl in Hr.
    destruct (nth_error v j) as [a|] eqn:Hj; [|discriminate]. simpl in Hr.
    destruct (subsref v idxs) as [r'|e]; [|discriminate]. simpl in Hr.
    injection Hr as <-.
    destruct (IH r' eq_refl) as [Hlen Hnth].
    split; [simpl; now rewrite Hlen|].
    intros [|k] i' Hk; simpl in Hk.
    + injection Hk as <-. exists j. simpl. rewrite Hj. repeat split. discriminate.
    + exact (Hnth k i' Hk).
Qed.

(** [find] lists its subscripts in strictly increasing order. *)
Lemma find_from_bounds (mask : list bool) :
  forall n, Forall (fun i => n <= i)%nat (find_from n mask).
Proof.
  induction mask as [|b mask IH]; intros n; simpl; [constructor|].
  assert (Htl : Forall (fun i => n <= i)%nat (find_from (S n) mask)).
  { eapply Forall_impl; [|apply IH]. simpl. intros; lia. }
  destruct b; simpl; [constructor; [lia|exact Htl] | exact Htl].
Qed.

Lemma find_from_sorted (mask : list bool) :
  forall n, StronglySorted lt (find_from n mask).
Proof.
  induction mask as [|b mask IH]; intros n; simpl; [constructor|].
  destruct b; simpl; [|apply IH].
  constructor; [apply IH|].
  eapply Forall_impl; [|apply find_from_bounds]. simpl. intros; lia.
Qed.

(** Element-wise operations on two images of one vector. *)
Lemma elementwise_map (B : Type) (op : A -> A -> A) (f g : B -> A) (l : list B) :
  elementwise op (map f l) (map g l) = Returned (map (fun b => op (f b) (g b)) l).
Proof.
  unfold elementwise. rewrite !length_map, Nat.eqb_refl. f_equal.
  induction l as [|b l IH]; simpl; [reflexivity|]. now rewrite IH.
Qed.
End VectorFacts.

Example find_example : find [false; true; true; false; true] = [2; 3; 5]%nat.
Proof. reflexivity. Qed.

Example subsref_example :
  subsref [10; 20; 30; 40]%nat [2; 4]%nat = Returned [20; 40]%nat.
Proof. reflexivity. Qed.

Example subsref_out_of_range :
  subsref [10; 20]%nat [1; 3]%nat = Raised IndexExceedsBounds.
Proof. reflexivity. Qed.

Example elementwise_size_mismatch :
  elementwise Nat.add [1; 2]%nat [1; 2; 3]%nat = Raised SizeMismatch.
Proof. reflexivity. Qed.

(** * The function body, for every arithmetic *)

Section WagnerFacts.
Context {C : Type} {num : Matlab.MatlabNum C}.
Variable fsolve : (C -> C) -> C -> Matlab.fsolve_out C.

Import Matlab.

(** The two slices select the same samples, the element-wise operations
    meet vectors of one length, and the body returns. *)
Lemma wagner_body_returns (sigmas : list C) (t s sdot sddot eps : C) :
  wagner_body fsolve sigmas t s sdot sddot eps
  = Returned
      {| ws_all_rs := map (fun sigma => inner_r t s eps sigma t) sigmas;
         ws_pos_idxs :=
           find (map (fun r => gt r (int 0))
                     (map (fun sigma => inner_r t s eps sigma t) sigmas));
         ws_rs := map (fun sigma => inner_r t s eps sigma t) (retained t s eps sigmas);
         ws_sigmas := retained t s eps sigmas;
         ws_ps := map (composite t s sdot sddot eps) (retained t s eps sigmas);
         ws_sigma_max := sigma_max fsolve;
         ws_pmax := pmax fsolve t s sdot sddot eps |}.
Proof.
  unfold wagner_body.
  rewrite subsref_find by now rewrite !length_map.
  rewrite select_map_filter, filter_map_comm. simpl.
  rewrite map_map.
  rewrite subsref_find by now rewrite !length_map.
  rewrite select_map_filter. simpl.
  fold (retained t s eps sigmas).
  rewrite !map_map.
  rewrite elementwise_map. simpl.
  rewrite elementwise_map. simpl.
  rewrite map_map. reflexivity.
Qed.

Lemma wagner_pressure_returns (sigmas : list C) (t s sdot sddot eps : C) :
  wagner_pressure fsolve sigmas t s sdot sddot eps
  = Returned (map (fun sigma => inner_r t s eps sigma t) (retained t s eps sigmas),
              map (composite t s sdot sddot eps) (retained t s eps sigmas),
              pmax fsolve t s sdot sddot eps).
Proof.
  unfold wagner_pressure. rewrite wagner_body_returns. reflexivity.
Qed.
End WagnerFacts.

(** * Exact arithmetic on real arguments *)

Section ExactFacts.

Lemma Q2R_inject_Z (z : Z) : Q2R (inject_Z z) = IZR z.
Proof. unfold Q2R, inject_Z. simpl. field. Qed.

Lemma int_exact (z : Z) : Matlab.int z = RtoC (IZR z).
Proof. unfold Matlab.int. simpl. now rewrite Q2R_inject_Z. Qed.

Lemma cplus_real (a b : R) : cplus (RtoC a) (RtoC b) = RtoC (a + b).
Proof. unfold cplus, RtoC. simpl. f_equal; lra. Qed.

Lemma cminus_real (a b : R) : cminus (RtoC a) (RtoC b) = RtoC (a - b).
Proof. unfold cminus, RtoC. simpl. f_equal; lra. Qed.

Lemma ctimes_real (a b : R) : ctimes (RtoC a) (RtoC b) = RtoC (a * b).
Proof. unfold ctimes, RtoC. simpl. f_equal; lra. Qed.

Lemma cuminus_real (a : R) : cuminus (RtoC a) = RtoC (- a).
Proof. unfold cuminus, RtoC. simpl. f_equal; lra. Qed.

Lemma crdivide_real (a b : R) : crdivide (RtoC a) (RtoC b) = RtoC (a / b).
Proof.
  unfold crdivide, RtoC. simpl.
  destruct (Req_dec b 0) as [-> | Hb].
  - f_equal; unfold Rdiv; rewrite ?Rmult_0_r, ?Rplus_0_r, ?Rinv_0; lra.
  - f_equal; field; nra.
Qed.

Lemma cabs_real (a : R) : cabs (RtoC a) = Rabs a.
Proof.
  unfold cabs, RtoC. simpl.
  replace (a * a + 0 * 0) with (Rsqr a) by (unfold Rsqr; lra).
  apply sqrt_Rsqr_abs.
Qed.

Lemma csqrt_nonneg (a : R) : 0 <= a -> csqrt (RtoC a) = RtoC (sqrt a).
Proof.
  intros Ha. unfold csqrt. rewrite cabs_real, Rabs_pos_eq by exact Ha.
  unfold RtoC. simpl.
  destruct (Rlt_dec 0 0) as [H|_]; [lra|].
  f_equal.
  - f_equal. lra.
  - replace ((a - a) / 2) with 0 by lra. rewrite sqrt_0. lra.
Qed.

Lemma csqrt_neg (a : R) : a < 0 -> csqrt (RtoC a) = Cplx 0 (sqrt (- a)).
Proof.
  intros Ha. unfold csqrt. rewrite cabs_real, Rabs_left by exact Ha.
  unfold RtoC. simpl.
  destruct (Rlt_dec 0 0) as [H|_]; [lra|].
  f_equal.
  - replace ((- a + a) / 2) with 0 by lra. apply sqrt_0.
  - replace ((- a - a) / 2) with (- a) by lra. lra.
Qed.

Lemma clog_real (a : R) : 0 <= a -> clog (RtoC a) = RtoC (ln a).
Proof.
  intros Ha. unfold clog. rewrite cabs_real, Rabs_pos_eq by exact Ha.
  unfold RtoC. f_equal. unfold cangle. simpl.
  destruct (Rlt_dec 0 a) as [Hpos|Hn].
  - unfold Rdiv. rewrite Rmult_0_l. apply atan_0.
  - destruct (Rlt_dec a 0); [lra|].
    destruct (Rlt_dec 0 0); [lra|reflexivity].
Qed.

Lemma is_zero_real (a : R) : a <> 0 -> is_zero (RtoC a) = false.
Proof.
  intros Ha. unfold is_zero. simpl. destruct (Req_EM_T a 0); [contradiction|reflexivity].
Qed.

Lemma cpower_pos (a b : R) : 0 < a -> cpower (RtoC a) (RtoC b) = RtoC (Rpower a b).
Proof.
  intros Ha. unfold cpower. rewrite is_zero_real by lra.
  rewrite clog_real by lra. rewrite ctimes_real.
  unfold cexp, RtoC. simpl. rewrite cos_0, sin_0. unfold Rpower. f_equal; lra.
Qed.

Lemma Rpower_2 (a : R) : 0 < a -> Rpower a 2 = a * a.
Proof.
  intros Ha. replace 2 with (INR 2) by (simpl; lra).
  rewrite Rpower_pow by exact Ha. simpl. lra.
Qed.

Lemma Rpower_3 (a : R) : 0 < a -> Rpower a 3 = a * a * a.
Proof.
  intros Ha. replace 3 with (INR 3) by (simpl; lra).
  rewrite Rpower_pow by exact Ha. simpl. lra.
Qed.

Lemma cpower_sq (a : R) : cpower (RtoC a) (RtoC 2) = RtoC (a * a).
Proof.
  destruct (Rtotal_order a 0) as [Hneg | [-> | Hpos]].
  - unfold cpower. rewrite is_zero_real by lra.
    unfold clog. rewrite cabs_real, Rabs_left by exact Hneg.
    unfold cangle. simpl.
    destruct (Rlt_dec 0 a); [lra|]. destruct (Rlt_dec a 0); [|lra].
    destruct (Rlt_dec 0 0); [lra|].
    unfold Rdiv. rewrite Rmult_0_l, atan_0.
    unfold ctimes, cexp, RtoC. simpl.
    replace (2 * (0 + PI) + 0 * ln (- a)) with (2 * PI) by lra.
    rewrite cos_2PI, sin_2PI.
    replace (2 * ln (- a) - 0 * (0 + PI)) with (2 * ln (- a)) by lra.
    fold (Rpower (- a) 2). rewrite Rpower_2 by lra. f_equal; lra.
  - unfold cpower, is_zero, RtoC. simpl.
    destruct (Req_EM_T 0 0); [|lra].
    destruct (Req_EM_T 2 0); [lra|]. f_equal; lra.
  - rewrite cpower_pos by exact Hpos. now rewrite Rpower_2.
Qed.


Lemma Rpower_3_2 (a : R) : 0 < a -> Rpower a (3 / 2) = a * sqrt a.
Proof.
  intros Ha. replace (3 / 2) with (1 + / 2) by lra.
  rewrite Rpower_plus, Rpower_1, Rpower_sqrt by exact Ha. reflexivity.
Qed.

End ExactFacts.

Ltac exact_ops :=
  cbn [Matlab.lit Matlab.pi Matlab.plus Matlab.minus Matlab.times Matlab.rdivide
       Matlab.power Matlab.uminus Matlab.sqrt Matlab.log Matlab.real Matlab.gt exact].

Tactic Notation "exact_ops" "in" hyp(H) :=
  cbn [Matlab.lit Matlab.pi Matlab.plus Matlab.minus Matlab.times Matlab.rdivide
       Matlab.power Matlab.uminus Matlab.sqrt Matlab.log Matlab.real Matlab.gt exact] in H.

Ltac real_ops :=
  rewrite ?int_exact; exact_ops;
  repeat first
    [ rewrite cplus_real | rewrite cminus_real | rewrite ctimes_real
    | rewrite crdivide_real | rewrite cuminus_real | rewrite cpower_sq ].


(** * The closed forms on the real domain *)

Section Kinematics.
Variables t s sdot sddot : R.
Hypothesis Hts : 0 < t - s.

Lemma d_real : Matlab.d (RtoC t) (RtoC s) = RtoC (spec_d t s).
Proof. unfold Matlab.d, spec_d. real_ops. apply csqrt_nonneg. lra. Qed.

Lemma ddot_real :
  Matlab.ddot (RtoC t) (RtoC s) (RtoC sdot) = RtoC (spec_ddot t s sdot).
Proof.
  unfold Matlab.ddot, spec_ddot. real_ops.
  rewrite !csqrt_nonneg by lra. real_ops. reflexivity.
Qed.

Lemma dddot_real :
  Matlab.dddot (RtoC t) (RtoC s) (RtoC sdot) (RtoC sddot)
  = RtoC (spec_dddot t s sdot sddot).
Proof.
  unfold Matlab.dddot, spec_dddot. real_ops.
  rewrite csqrt_nonneg by lra. rewrite cpower_pos by lra. real_ops.
  f_equal. simpl. now rewrite Rmult_1_r.
Qed.

Lemma J_real : Matlab.J (RtoC t) (RtoC s) = RtoC (spec_J t s).
Proof.
  unfold Matlab.J, spec_J. real_ops.
  rewrite csqrt_nonneg by lra. rewrite cpower_pos by lra. real_ops. reflexivity.
Qed.

Lemma spec_d_pos : 0 < spec_d t s.
Proof. unfold spec_d. apply sqrt_lt_R0. lra. Qed.

Lemma spec_d_sqr : spec_d t s ^ 2 = 3 * (t - s).
Proof. unfold spec_d. simpl. rewrite Rmult_1_r. apply sqrt_sqrt. lra. Qed.

Lemma tilde_r_real (sigma t' : R) :
  0 <= sigma ->
  Matlab.tilde_r (RtoC t) (RtoC s) (RtoC sigma) (RtoC t')
  = RtoC (spec_tilde_r t s sigma).
Proof.
  intros Hsigma. unfold Matlab.tilde_r, spec_tilde_r. rewrite J_real. real_ops.
  rewrite csqrt_nonneg, clog_real by exact Hsigma. real_ops. reflexivity.
Qed.

Lemma inner_r_real (eps sigma t' : R) :
  0 < eps -> 0 <= sigma ->
  Matlab.inner_r (RtoC t) (RtoC s) (RtoC eps) (RtoC sigma) (RtoC t')
  = RtoC (spec_inner_r t s eps sigma).
Proof.
  intros Heps Hsigma. unfold Matlab.inner_r, spec_inner_r.
  rewrite tilde_r_real, d_real by exact Hsigma. real_ops.
  rewrite cpower_pos by exact Heps. real_ops.
  rewrite Rpower_3 by exact Heps. f_equal. ring.
Qed.

Lemma inner_p_real (eps sigma t' : R) :
  0 <= sigma ->
  Matlab.inner_p (RtoC t) (RtoC s) (RtoC sdot) (RtoC eps) (RtoC sigma) (RtoC t')
  = RtoC (spec_inner_p t s sdot eps sigma).
Proof.
  intros Hsigma. unfold Matlab.inner_p, spec_inner_p.
  rewrite ddot_real. real_ops.
  rewrite csqrt_nonneg by exact Hsigma. real_ops.
  f_equal. simpl. rewrite !Rmult_1_r. reflexivity.
Qed.
End Kinematics.

(** * The profile, for every arithmetic *)

Section ProfileFacts.
Context {C : Type} {num : Matlab.MatlabNum C}.
Variable fsolve : (C -> C) -> C -> Matlab.fsolve_out C.

Import Matlab.
Local Open Scope matlab_scope.

Lemma slice_sigmas (sigmas : list C) (t s eps : C) :
  subsref sigmas
    (find (map (fun r => r > int 0) (map (fun sigma => inner_r t s eps sigma t) sigmas)))
  = Returned (retained t s eps sigmas).
Proof.
  rewrite map_map.
  rewrite subsref_find by now rewrite !length_map.
  now rewrite select_map_filter.
Qed.

(** C9: the two output sequences have one length; the pressure at a
    position is computed from the sample of the caller's vector that gave
    the radius at that position; and the positions kept follow the order
    of the caller's samples ([pos_idxs] is strictly increasing). *)
Theorem profile_alignment (sigmas : list C) (t s sdot sddot eps : C) :
  exists w : workspace,
    wagner_body fsolve sigmas t s sdot sddot eps = Returned w
    /\ wagner_pressure fsolve sigmas t s sdot sddot eps
       = Returned (ws_rs w, ws_ps w, ws_pmax w)
    /\ length (ws_rs w) = length (ws_ps w)
    /\ length (ws_pos_idxs w) = length (ws_rs w)
    /\ StronglySorted lt (ws_pos_idxs w)
    /\ forall k i, nth_error (ws_pos_idxs w) k = Some i ->
         exists j sigma,
           i = S j
           /\ nth_error sigmas j = Some sigma
           /\ nth_error (ws_rs w) k = Some (inner_r t s eps sigma t)
           /\ nth_error (ws_ps w) k
              = Some (real (inner_p t s sdot eps sigma t
                            + outer_p t s sdot sddot eps (inner_r t s eps sigma t / eps) t
                            - overlap t s sdot eps (inner_r t s eps sigma t) t)).
Proof.
  eexists. split; [apply wagner_body_returns|]. cbn [ws_rs ws_ps ws_pmax ws_pos_idxs].
  destruct (subsref_spec _ _ (slice_sigmas sigmas t s eps)) as [Hlen Hnth].
  split; [apply wagner_pressure_returns|].
  split; [now rewrite !length_map|].
  split; [now rewrite length_map|].
  split; [apply find_from_sorted|].
  intros k i Hk.
  destruct (Hnth k i Hk) as [j [-> [Hkj Hj]]].
  destruct (nth_error sigmas j) as [sigma|] eqn:Hsigma; [|contradiction].
  exists j, sigma.
  split; [reflexivity|]. split; [exact Hsigma|].
  split; rewrite nth_error_map, Hkj; reflexivity.
Qed.

(** C6 (as amended): the call never signals a ConvergenceError.  The
    located sample is the first output of [fsolve], whatever its exit
    flag, and the peak pressure is computed from it; a solver that stops
    at the seed has the seed used as the located sample. *)
Theorem solver_output_is_used (sigmas : list C) (t s sdot sddot eps : C) :
  wagner_pressure fsolve sigmas t s sdot sddot eps <> Raised ConvergenceError
  /\ exists w : workspace,
       wagner_body fsolve sigmas t s sdot sddot eps = Returned w
       /\ ws_sigma_max w = x (fsolve zero_fun seed)
       /\ ws_pmax w
          = real (inner_p t s sdot eps (x (fsolve zero_fun seed)) t
                  + outer_p t s sdot sddot eps
                      (inner_r t s eps (x (fsolve zero_fun seed)) t / eps) t
                  - overlap t s sdot eps
                      (inner_r t s eps (x (fsolve zero_fun seed)) t / eps) t).
Proof.
  split.
  - rewrite wagner_pressure_returns. discriminate.
  - eexists. split; [apply wagner_body_returns|]. split; reflexivity.
Qed.
End ProfileFacts.

(** * The profile in exact arithmetic *)

Section ExactProfile.
Variable fsolve : (complex -> complex) -> complex -> Matlab.fsolve_out complex.

Import Matlab.
Local Open Scope matlab_scope.

Lemma cgt_zero (r : complex) : (r > int 0) = negb (if Rle_dec (re r) 0 then true else false).
Proof.
  rewrite int_exact. exact_ops. unfold cgt. simpl.
  destruct (Rlt_dec 0 (re r)), (Rle_dec (re r) 0); try reflexivity; lra.
Qed.

Lemma retained_exact (t s eps : complex) (sigmas : list complex) :
  retained t s eps sigmas
  = filter (fun sigma => negb (if Rle_dec (re (inner_r t s eps sigma t)) 0 then true else false))
           sigmas.
Proof.
  unfold retained. apply filter_ext. intros sigma. apply cgt_zero.
Qed.

(** C1: for every sample vector and every state (so also when
    [t - s > 0]), the function computes [r = inner_r(sigma)] for each
    sample, drops exactly the samples with [r <= 0], keeps the others in
    place, and pairs each radius kept with
    [real(inner_p(sigma) + outer_p(r/eps) - overlap(r))]; every radius
    returned is greater than 0.  The relational operator compares real
    parts. *)
Theorem composite_profile (sigmas : list complex) (t s sdot sddot eps : complex) :
  let r := fun sigma => inner_r t s eps sigma t in
  let kept :=
    filter (fun sigma => negb (if Rle_dec (re (r sigma)) 0 then true else false)) sigmas in
  wagner_pressure fsolve sigmas t s sdot sddot eps
  = Returned
      (map r kept,
       map (fun sigma =>
              real (inner_p t s sdot eps sigma t
                    + outer_p t s sdot sddot eps (r sigma / eps) t
                    - overlap t s sdot eps (r sigma) t))
           kept,
       pmax fsolve t s sdot sddot eps)
  /\ Forall (fun x => (0 < re x)%R) (map r kept).
Proof.
  intros r kept. split.
  - rewrite wagner_pressure_returns, retained_exact. reflexivity.
  - apply Forall_forall. intros x Hx.
    apply in_map_iff in Hx. destruct Hx as [sigma [<- Hin]].
    apply filter_In in Hin. destruct Hin as [_ Hpos].
    destruct (Rle_dec (re (r sigma)) 0); [discriminate|lra].
Qed.


(** X19: with real inputs in the domain of the closed forms
    ([t - s > 0], [eps > 0], samples not negative), the radii returned
    are real as well. *)
Lemma radii_are_real (sigmas : list R) (t s sdot sddot eps : R) :
  (0 < t - s)%R -> (0 < eps)%R -> Forall (fun sigma => (0 <= sigma)%R) sigmas ->
  exists (rs ps : list complex) (pm : complex),
    wagner_pressure fsolve (map RtoC sigmas) (RtoC t) (RtoC s) (RtoC sdot) (RtoC sddot)
      (RtoC eps)
    = Returned (rs, ps, pm)
    /\ Forall isreal rs.
Proof.
  intros Hts Heps Hsigmas.
  do 3 eexists. split; [apply wagner_pressure_returns|].
  apply Forall_forall. intros r Hr. apply in_map_iff in Hr.
  destruct Hr as [sigma [<- Hin]].
  apply filter_In in Hin. destruct Hin as [Hin _].
  apply in_map_iff in Hin. destruct Hin as [a [<- Ha]].
  rewrite Forall_forall in Hsigmas.
  rewrite (@inner_r_real t s Hts eps a t Heps (Hsigmas a Ha)). reflexivity.
Qed.
End ExactProfile.

(** C5 as stated fails: at [t = 0], [s = 1], where [t - s <= 0], the call
    does not raise a DomainError. *)
Lemma domain_error_not_raised :
  0 - 1 <= 0 /\
  Matlab.wagner_pressure fsolve_stalled [RtoC 1] (RtoC 0) (RtoC 1) (RtoC 0) (RtoC 0) (RtoC 1)
  <> Raised DomainError.
Proof.
  split; [lra|]. rewrite wagner_pressure_returns. discriminate.
Qed.

(** C6 as stated fails: with a solver that does not converge and hands
    back the seed, the seed is taken as the located sample and the call
    does not raise a ConvergenceError. *)
Lemma convergence_error_not_raised :
  Matlab.exitflag (fsolve_stalled Matlab.zero_fun Matlab.seed) = 0%Z
  /\ Matlab.sigma_max fsolve_stalled = Matlab.seed
  /\ Matlab.wagner_pressure fsolve_stalled [RtoC 1] (RtoC 1) (RtoC 0) (RtoC 0) (RtoC 0) (RtoC 1)
     <> Raised ConvergenceError.
Proof.
  split; [reflexivity|]. split; [reflexivity|].
  rewrite wagner_pressure_returns. discriminate.
Qed.

(** * The closed forms of the turnover point and of the inner solution *)

(** C2: when [t - s > 0] the turnover position, its rate and its second
    rate are the real numbers of the closed forms, and the square of the
    position is [3 (t - s)]. *)
Theorem turnover_kinematics (t s sdot sddot : R) :
  0 < t - s ->
  Matlab.d (RtoC t) (RtoC s) = RtoC (spec_d t s)
  /\ Matlab.ddot (RtoC t) (RtoC s) (RtoC sdot) = RtoC (spec_ddot t s sdot)
  /\ Matlab.dddot (RtoC t) (RtoC s) (RtoC sdot) (RtoC sddot)
     = RtoC (spec_dddot t s sdot sddot)
  /\ spec_d t s ^ 2 = 3 * (t - s)
  /\ Matlab.power (Matlab.d (RtoC t) (RtoC s)) (Matlab.int 2) = RtoC (3 * (t - s)).
Proof.
  intros Hts.
  split; [now apply d_real|].
  split; [now apply ddot_real|].
  split; [now apply dddot_real|].
  split; [now apply spec_d_sqr|].
  rewrite d_real by exact Hts. real_ops.
  f_equal. rewrite <- (spec_d_sqr Hts). ring.
Qed.

(** C2 at [t = 1], [s = 0]. *)
Lemma turnover_kinematics_witness :
  0 < 1 - 0 /\ Matlab.d (RtoC 1) (RtoC 0) = RtoC (spec_d 1 0).
Proof.
  split; [lra|].
  apply (@turnover_kinematics 1 0 0 0). lra.
Defined.

(** C3: when [t - s > 0], [eps > 0] and [sigma >= 0], the jet thickness,
    the local offset, the radius and the pressure of the inner solution
    are the real numbers of the closed forms.  (At [sigma = 0] the
    logarithm is MATLAB's [-Inf]; both sides then carry the library's
    value of [ln 0].) *)
Theorem inner_solution (t s sdot eps sigma : R) :
  0 < t - s -> 0 < eps -> 0 <= sigma ->
  Matlab.J (RtoC t) (RtoC s) = RtoC (spec_J t s)
  /\ Matlab.tilde_r (RtoC t) (RtoC s) (RtoC sigma) (RtoC t)
     = RtoC (spec_tilde_r t s sigma)
  /\ Matlab.inner_r (RtoC t) (RtoC s) (RtoC eps) (RtoC sigma) (RtoC t)
     = RtoC (spec_inner_r t s eps sigma)
  /\ Matlab.inner_p (RtoC t) (RtoC s) (RtoC sdot) (RtoC eps) (RtoC sigma) (RtoC t)
     = RtoC (spec_inner_p t s sdot eps sigma).
Proof.
  intros Hts Heps Hsigma.
  split; [now apply J_real|].
  split; [now apply tilde_r_real|].
  split; [now apply inner_r_real|].
  now apply inner_p_real.
Qed.

(** C3 at [t = 1], [s = 0], [eps = 1], [sigma = 1]. *)
Lemma inner_solution_witness :
  (0 < 1 - 0 /\ 0 < 1 /\ 0 <= 1)
  /\ Matlab.J (RtoC 1) (RtoC 0) = RtoC (spec_J 1 0).
Proof.
  split; [lra|].
  apply (@inner_solution 1 0 0 1 1); lra.
Defined.

(** * Where the zero of [zero_fun] is *)

Lemma zero_fun_real (sigma : R) :
  0 <= sigma -> Matlab.zero_fun (RtoC sigma) = RtoC (spec_zero_fun sigma).
Proof.
  intros Hsigma. unfold Matlab.zero_fun, spec_zero_fun. real_ops.
  rewrite csqrt_nonneg, clog_real by exact Hsigma. real_ops. reflexivity.
Qed.

Lemma ln_lt_of_lt_exp (a y : R) : 0 < a -> a < exp y -> ln a < y.
Proof.
  intros Ha Hlt. rewrite <- (ln_exp y). now apply ln_increasing.
Qed.

Lemma ln_gt_of_exp_lt (a y : R) : 0 < a -> exp y < a -> y < ln a.
Proof.
  intros Ha Hlt. rewrite <- (ln_exp y). apply ln_increasing; [apply exp_pos|exact Hlt].
Qed.

Lemma exp_opp_inv (y : R) : exp (- y) = / exp y.
Proof.
  pose proof (exp_pos y) as Hy.
  apply Rmult_eq_reg_r with (exp y); [|lra].
  rewrite <- exp_plus. replace (- y + y) with 0 by lra.
  rewrite exp_0. field. lra.
Qed.

Lemma exp_double (y : R) : exp (2 * y) = exp y * exp y.
Proof. replace (2 * y) with (y + y) by lra. apply exp_plus. Qed.

(** [exp 2.3648 > 10], by six squarings of [exp y > 1 + y]. *)
Lemma exp_above_ten : 10 < exp (23648 / 10000).
Proof.
  set (y := 23648 / 10000 / 64).
  assert (H0 : 103695 / 100000 < exp y).
  { pose proof (exp_ineq1 y) as H. unfold y in *. lra. }
  assert (H1 : 107526 / 100000 < exp (2 * y)) by (rewrite exp_double; nra).
  assert (H2 : 115618 / 100000 < exp (2 * (2 * y))) by (rewrite exp_double; nra).
  assert (H3 : 133675 / 100000 < exp (2 * (2 * (2 * y)))) by (rewrite exp_double; nra).
  assert (H4 : 178690 / 100000 < exp (2 * (2 * (2 * (2 * y)))))
    by (rewrite exp_double; nra).
  assert (H5 : 319301 / 100000 < exp (2 * (2 * (2 * (2 * (2 * y))))))
    by (rewrite exp_double; nra).
  assert (H6 : 10 < exp (2 * (2 * (2 * (2 * (2 * (2 * y)))))))
    by (rewrite exp_double; nra).
  replace (23648 / 10000) with (2 * (2 * (2 * (2 * (2 * (2 * y)))))) by (unfold y; lra).
  exact H6.
Qed.

(** [exp (- 2.29) > 0.09], by five squarings of [exp (- y) > 1 - y]. *)
Lemma exp_opp_above : 9 / 100 < exp (- (229 / 100)).
Proof.
  set (y := - (229 / 100) / 32).
  assert (H0 : 92843 / 100000 < exp y).
  { pose proof (exp_ineq1 y) as H. unfold y in *. lra. }
  assert (H1 : 86198 / 100000 < exp (2 * y)) by (rewrite exp_double; nra).
  assert (H2 : 74300 / 100000 < exp (2 * (2 * y))) by (rewrite exp_double; nra).
  assert (H3 : 55204 / 100000 < exp (2 * (2 * (2 * y)))) by (rewrite exp_double; nra).
  assert (H4 : 30474 / 100000 < exp (2 * (2 * (2 * (2 * y)))))
    by (rewrite exp_double; nra).
  assert (H5 : 9 / 100 < exp (2 * (2 * (2 * (2 * (2 * y))))))
    by (rewrite exp_double; nra).
  replace (- (229 / 100)) with (2 * (2 * (2 * (2 * (2 * y))))) by (unfold y; lra).
  exact H5.
Qed.

Lemma sqrt_lt_bound (a b : R) : 0 <= a -> 0 <= b -> a < b * b -> sqrt a < b.
Proof.
  intros Ha Hb Hlt. rewrite <- (sqrt_square b Hb).
  apply sqrt_lt_1_alt. lra.
Qed.

Lemma sqrt_gt_bound (a b : R) : 0 <= b -> b * b < a -> b < sqrt a.
Proof.
  intros Hb Hlt. rewrite <- (sqrt_square b Hb) at 1.
  apply sqrt_lt_1_alt. nra.
Qed.

(** The function is strictly increasing on the positive reals. *)
Lemma spec_zero_fun_increasing (a b : R) :
  0 < a -> a < b -> spec_zero_fun a < spec_zero_fun b.
Proof.
  intros Ha Hab. unfold spec_zero_fun.
  assert (Hsq : sqrt a < sqrt b) by (apply sqrt_lt_1_alt; lra).
  assert (Hln : ln a < ln b) by now apply ln_increasing.
  lra.
Qed.

Lemma spec_zero_fun_monotone (a b : R) :
  0 < a -> a <= b -> spec_zero_fun a <= spec_zero_fun b.
Proof.
  intros Ha [Hlt | ->]; [left; now apply spec_zero_fun_increasing | right; reflexivity].
Qed.

(** It is negative at 0.09 ... *)
Lemma spec_zero_fun_at_low : spec_zero_fun (9 / 100) < 0.
Proof.
  unfold spec_zero_fun.
  assert (Hsq : sqrt (9 / 100) = 3 / 10) by (apply sqrt_lem_1; lra).
  assert (Hln : ln (9 / 100) < - (229 / 100)).
  { apply ln_lt_of_lt_exp; [lra|apply exp_opp_above]. }
  rewrite Hsq. lra.
Qed.

(** ... and positive at 0.1. *)
Lemma spec_zero_fun_at_high : 0 < spec_zero_fun (1 / 10).
Proof.
  unfold spec_zero_fun.
  assert (Hsq : 3162 / 10000 < sqrt (1 / 10)) by (apply sqrt_gt_bound; lra).
  assert (Hln : - (23648 / 10000) < ln (1 / 10)).
  { apply ln_gt_of_exp_lt; [lra|]. rewrite exp_opp_inv.
    pose proof exp_above_ten as H.
    replace (1 / 10) with (/ 10) by lra.
    apply Rinv_lt_contravar; [|exact H].
    pose proof (exp_pos (23648 / 10000)). nra. }
  lra.
Qed.

(** Up to 0.09 the function is negative. *)
Lemma spec_zero_fun_low (sigma : R) :
  0 < sigma <= 9 / 100 -> spec_zero_fun sigma < 0.
Proof.
  intros [Hpos Hle].
  pose proof (spec_zero_fun_monotone Hpos Hle). pose proof spec_zero_fun_at_low. lra.
Qed.

(** From 0.1 on it is positive. *)
Lemma spec_zero_fun_high (sigma : R) :
  1 / 10 <= sigma -> 0 < spec_zero_fun sigma.
Proof.
  intros Hle.
  assert (Hpos : 0 < 1 / 10) by lra.
  pose proof (spec_zero_fun_monotone Hpos Hle). pose proof spec_zero_fun_at_high. lra.
Qed.

Lemma spec_zero_fun_continuous (a : R) : 0 < a -> continuity_pt spec_zero_fun a.
Proof.
  intros Ha. unfold spec_zero_fun.
  assert (Hln : continuity_pt ln a).
  { apply derivable_continuous_pt. exists (/ a). now apply derivable_pt_lim_ln. }
  assert (Hsq : continuity_pt sqrt a) by now apply sqrt_continuity_pt.
  apply (continuity_pt_plus (fun x => x + 4 * sqrt x + ln x) (fun _ => 1)).
  - apply (continuity_pt_plus (fun x => x + 4 * sqrt x) ln); [|exact Hln].
    apply (continuity_pt_plus (fun x => x) (fun x => 4 * sqrt x)).
    + apply derivable_continuous_pt, derivable_pt_id.
    + apply (continuity_pt_mult (fun _ => 4) sqrt); [|exact Hsq].
      apply continuity_pt_const. intros x y. reflexivity.
  - apply continuity_pt_const. intros x y. reflexivity.
Qed.

(** The function has exactly one positive zero, between 0.09 and 0.1. *)
Lemma spec_zero_fun_root :
  exists sigma0 : R,
    9 / 100 < sigma0 < 1 / 10
    /\ spec_zero_fun sigma0 = 0
    /\ forall sigma, 0 < sigma -> spec_zero_fun sigma = 0 -> sigma = sigma0.
Proof.
  destruct (Ranalysis5.IVT_interv spec_zero_fun (9 / 100) (1 / 10)) as [z [[Hlo Hhi] Hz]].
  - intros a [Ha _]. apply spec_zero_fun_continuous. lra.
  - lra.
  - apply spec_zero_fun_at_low.
  - apply spec_zero_fun_at_high.
  - exists z. split; [|split].
    + split.
      * destruct Hlo as [Hlt | <-]; [exact Hlt|].
        pose proof spec_zero_fun_at_low. lra.
      * destruct Hhi as [Hlt | ->]; [exact Hlt|].
        pose proof spec_zero_fun_at_high. lra.
    + exact Hz.
    + intros sigma Hpos Hsigma.
      assert (Hzpos : 0 < z) by lra.
      destruct (Rtotal_order sigma z) as [Hlt | [Heq | Hgt]]; [|exact Heq|].
      * pose proof (spec_zero_fun_increasing Hpos Hlt). lra.
      * pose proof (spec_zero_fun_increasing Hzpos Hgt). lra.
Qed.

(** * The peak pressure *)

Section PeakPressure.
Variable fsolve : (complex -> complex) -> complex -> Matlab.fsolve_out complex.

(** The peak pressure and the composite pressure of the profile, taken at
    the located sample, differ at most in the overlap term. *)
Lemma pmax_composite_iff (t s sdot sddot eps : complex) :
  Matlab.pmax fsolve t s sdot sddot eps
  = Matlab.composite t s sdot sddot eps (Matlab.sigma_max fsolve)
  <-> re (Matlab.overlap t s sdot eps
            (Matlab.rdivide (Matlab.inner_r t s eps (Matlab.sigma_max fsolve) t) eps) t)
      = re (Matlab.overlap t s sdot eps
              (Matlab.inner_r t s eps (Matlab.sigma_max fsolve) t) t).
Proof.
  unfold Matlab.pmax, Matlab.composite. exact_ops.
  unfold creal, cminus, cplus, RtoC. simpl.
  split.
  - intros H. injection H as H. lra.
  - intros H. f_equal. lra.
Qed.

Lemma crdivide_one (z : complex) : crdivide z (RtoC 1) = z.
Proof.
  destruct z as [a b]. unfold crdivide, RtoC. simpl. f_equal; field.
Qed.

(** X10: with [eps = 1], the value the script uses, the peak pressure is
    the composite pressure of the profile taken at the located sample. *)
Lemma pmax_unit_eps (t s sdot sddot : complex) :
  Matlab.pmax fsolve t s sdot sddot (RtoC 1)
  = Matlab.composite t s sdot sddot (RtoC 1) (Matlab.sigma_max fsolve).
Proof.
  apply pmax_composite_iff. exact_ops. now rewrite crdivide_one.
Qed.
End PeakPressure.

(** The real part of a real numerator over a real multiple of the square
    root of a real radicand. *)
Lemma re_over_csqrt_nonneg (n k rad : R) :
  0 <= rad ->
  re (crdivide (RtoC n) (ctimes (RtoC k) (csqrt (RtoC rad)))) = n / (k * sqrt rad).
Proof.
  intros Hrad. rewrite csqrt_nonneg by exact Hrad.
  now rewrite ctimes_real, crdivide_real.
Qed.

Lemma re_over_csqrt_neg (n k rad : R) :
  rad < 0 ->
  re (crdivide (RtoC n) (ctimes (RtoC k) (csqrt (RtoC rad)))) = 0.
Proof.
  intros Hrad. rewrite csqrt_neg by exact Hrad.
  unfold crdivide, ctimes, RtoC. simpl.
  unfold Rdiv. rewrite !Rmult_0_r, !Rmult_0_l, Rminus_0_r, Rplus_0_r, Rmult_0_r.
  apply Rmult_0_l.
Qed.

Section Overlap.
Variables t s sdot eps : R.
Hypothesis Hts : 0 < t - s.
Hypothesis Heps : 0 < eps.

Lemma overlap_real_argument (r t' : R) :
  Matlab.overlap (RtoC t) (RtoC s) (RtoC sdot) (RtoC eps) (RtoC r) (RtoC t')
  = crdivide
      (RtoC (2 * sqrt 2 * Rpower (spec_d t s) (3 / 2) * (spec_ddot t s sdot * spec_ddot t s sdot)))
      (ctimes (RtoC (3 * PI * (eps * eps)))
              (csqrt (RtoC (spec_d t s / (eps * eps) - r / (eps * eps * eps))))).
Proof.
  unfold Matlab.overlap. rewrite (d_real Hts), (ddot_real sdot Hts). real_ops.
  rewrite (csqrt_nonneg (a := 2)) by lra.
  rewrite (cpower_pos (3 / 2) (spec_d_pos Hts)).
  rewrite (cpower_pos 3 Heps). rewrite (Rpower_3 Heps). real_ops.
  reflexivity.
Qed.
End Overlap.

Lemma Rdiv_same_numerator (n a b : R) :
  n <> 0 -> n / a = n / b -> a = b.
Proof.
  intros Hn H. unfold Rdiv in H. apply Rmult_eq_reg_l in H; [|exact Hn].
  rewrite <- (Rinv_inv a), <- (Rinv_inv b). now rewrite H.
Qed.

Lemma sqrt_hundredth : sqrt (1 / 100 - 0) = 1 / 10.
Proof. apply sqrt_lem_1; lra. Qed.

(** Between [1/20] and [1/5] the function stays between [-18] and [6]. *)
Lemma spec_zero_fun_bracket (sigma : R) :
  1 / 20 < sigma < 1 / 5 -> - 18 < spec_zero_fun sigma < 6.
Proof.
  intros [Hlo Hhi]. unfold spec_zero_fun.
  assert (Hln0 : ln sigma < 0).
  { apply ln_lt_of_lt_exp; [lra|]. rewrite exp_0. lra. }
  assert (Hln19 : - (19) < ln sigma).
  { apply ln_gt_of_exp_lt; [lra|]. rewrite exp_opp_inv.
    assert (H : 1 + 19 < exp 19) by (apply exp_ineq1; lra).
    apply Rlt_trans with (/ 20); [|lra].
    apply Rinv_lt_contravar; [|lra].
    pose proof (exp_pos 19). nra. }
  assert (Hsq0 : 0 <= sqrt sigma) by apply sqrt_pos.
  assert (Hsq1 : sqrt sigma < 1) by (apply sqrt_lt_bound; lra).
  lra.
Qed.

(** The local offset of a sample in that bracket, at [t - s = 1/100]: it
    is small, and it vanishes only at a zero of the function. *)
Lemma spec_tilde_r_small (sigma : R) :
  1 / 20 < sigma < 1 / 5 ->
  - (18 / 1000) < spec_tilde_r (1 / 100) 0 sigma < 18 / 1000
  /\ (spec_tilde_r (1 / 100) 0 sigma = 0 -> spec_zero_fun sigma = 0).
Proof.
  intros Hbr. pose proof (spec_zero_fun_bracket Hbr) as Hf.
  unfold spec_zero_fun in *. unfold spec_tilde_r, spec_J.
  rewrite Rpower_3_2 by lra. rewrite sqrt_hundredth.
  set (f := sigma + 4 * sqrt sigma + ln sigma + 1) in *.
  assert (H3 : 1 < sqrt 3) by (apply sqrt_gt_bound; lra).
  assert (Hpi : 3 < PI) by (pose proof PI2_3_2; lra).
  set (c := 2 * ((1 / 100 - 0) * (1 / 10)) / (sqrt 3 * PI) / PI).
  assert (Hq : 9 < sqrt 3 * PI * PI) by nra.
  assert (Hcq : c * (sqrt 3 * PI * PI) = 2 / 1000).
  { unfold c. field. split; lra. }
  assert (Hc : 0 < c < 1 / 1000) by nra.
  split; [nra|].
  intros H0. assert (Hcf : c * f = 0) by lra.
  apply Rmult_integral in Hcf. destruct Hcf; lra.
Qed.

(** C4: the peak pressure is not the composite pressure of the profile
    taken at the located sample.  [pmax] passes [inner_r(sigma_max)/eps]
    to [overlap], where the line of [ps] passes the radius itself.  At
    [t = 1/100], [s = sdot = sddot = 0] and [eps = 2], for every solver
    that locates a sample between 1/20 and 1/5 which is not an exact zero
    of [zero_fun], the two values differ. *)
Theorem peak_overlap_mismatch
  (fsolve : (complex -> complex) -> complex -> Matlab.fsolve_out complex) (x0 : R) :
  Matlab.x (fsolve Matlab.zero_fun Matlab.seed) = RtoC x0 ->
  1 / 20 < x0 < 1 / 5 ->
  Matlab.zero_fun (RtoC x0) <> RtoC 0 ->
  Matlab.pmax fsolve (RtoC (1 / 100)) (RtoC 0) (RtoC 0) (RtoC 0) (RtoC 2)
  <> Matlab.composite (RtoC (1 / 100)) (RtoC 0) (RtoC 0) (RtoC 0) (RtoC 2)
       (Matlab.sigma_max fsolve).
Proof.
  intros Hx Hbr Hnz Heq.
  assert (Hts : 0 < 1 / 100 - 0) by lra.
  assert (Heps : 0 < 2) by lra.
  apply pmax_composite_iff in Heq.
  unfold Matlab.sigma_max in Heq. rewrite Hx in Heq.
  rewrite (@inner_r_real (1 / 100) 0 Hts 2 x0 (1 / 100)) in Heq by lra.
  exact_ops in Heq. rewrite crdivide_real in Heq.
  rewrite !(overlap_real_argument 0 Hts Heps) in Heq.
  destruct (spec_tilde_r_small Hbr) as [Htr Htr0].
  assert (Htrnz : spec_tilde_r (1 / 100) 0 x0 <> 0).
  { intros H0. apply Hnz. rewrite zero_fun_real by lra. now rewrite (Htr0 H0). }
  clear Htr0.
  pose proof (spec_d_pos Hts) as Hd.
  pose proof (spec_d_sqr Hts) as Hd2.
  assert (Hr : spec_inner_r (1 / 100) 0 2 x0
               = 2 * spec_d (1 / 100) 0 + 8 * spec_tilde_r (1 / 100) 0 x0).
  { unfold spec_inner_r. ring. }
  rewrite Hr in Heq. clear Hr.
  set (D := spec_d (1 / 100) 0) in *.
  set (tr := spec_tilde_r (1 / 100) 0 x0) in *.
  assert (HD : 17 / 100 < D) by nra.
  set (n := 2 * sqrt 2 * Rpower D (3 / 2)
            * (spec_ddot (1 / 100) 0 0 * spec_ddot (1 / 100) 0 0)) in *.
  set (k := 3 * PI * (2 * 2)) in *.
  assert (Hn : 0 < n).
  { unfold n. assert (0 < sqrt 2) by (apply sqrt_lt_R0; lra).
    assert (0 < Rpower D (3 / 2)) by (unfold Rpower; apply exp_pos).
    assert (0 < spec_ddot (1 / 100) 0 0).
    { unfold spec_ddot. rewrite sqrt_hundredth.
      assert (0 < sqrt 3) by (apply sqrt_lt_R0; lra). lra. }
    apply Rmult_lt_0_compat; [apply Rmult_lt_0_compat; [lra|assumption]|].
    apply Rmult_lt_0_compat; assumption. }
  assert (Hk : 0 < k) by (unfold k; pose proof PI_RGT_0; lra).
  replace (D / (2 * 2) - (2 * D + 8 * tr) / 2 / (2 * 2 * 2)) with (D / 8 - tr / 2)
    in Heq by lra.
  replace (D / (2 * 2) - (2 * D + 8 * tr) / (2 * 2 * 2)) with (- tr) in Heq by lra.
  assert (Hrad1 : 0 < D / 8 - tr / 2) by lra.
  rewrite (re_over_csqrt_nonneg n k (Rlt_le _ _ Hrad1)) in Heq.
  assert (Hs1 : 0 < sqrt (D / 8 - tr / 2)) by now apply sqrt_lt_R0.
  assert (Hlhs : 0 < n / (k * sqrt (D / 8 - tr / 2))).
  { apply Rdiv_lt_0_compat; [exact Hn|]. now apply Rmult_lt_0_compat. }
  destruct (Rtotal_order (- tr) 0) as [Hneg | [Hzero | Hpos]].
  - rewrite (re_over_csqrt_neg n k Hneg) in Heq. lra.
  - lra.
  - rewrite re_over_csqrt_nonneg in Heq by lra.
    apply Rdiv_same_numerator in Heq; [|lra].
    apply Rmult_eq_reg_l in Heq; [|lra].
    apply sqrt_inj in Heq; lra.
Qed.

(** C4 with the solver that hands back 0.1. *)
Lemma peak_overlap_mismatch_witness :
  (Matlab.x (fsolve_located Matlab.zero_fun Matlab.seed) = RtoC (1 / 10)
   /\ 1 / 20 < 1 / 10 < 1 / 5
   /\ Matlab.zero_fun (RtoC (1 / 10)) <> RtoC 0)
  /\ Matlab.pmax fsolve_located (RtoC (1 / 100)) (RtoC 0) (RtoC 0) (RtoC 0) (RtoC 2)
     <> Matlab.composite (RtoC (1 / 100)) (RtoC 0) (RtoC 0) (RtoC 0) (RtoC 2)
          (Matlab.sigma_max fsolve_located).
Proof.
  assert (Hnz : Matlab.zero_fun (RtoC (1 / 10)) <> RtoC 0).
  { rewrite zero_fun_real by lra. intros H. injection H as H.
    pose proof spec_zero_fun_at_high. lra. }
  split; [split; [reflexivity|split; [lra|exact Hnz]]|].
  apply (@peak_overlap_mismatch fsolve_located (1 / 10)); [reflexivity|lra|exact Hnz].
Defined.

(** * The located sample *)

(** C7 (as amended): the value the root-solve locates is the same for any
    two calls, whatever their samples, times, plate states and [eps]: it
    is the first output of [fsolve] for the fixed function [zero_fun] and
    the seed 0.0233.  The function has exactly one positive zero, and that
    zero lies between 0.09 and 0.1; the seed is not a zero. *)
Theorem located_sigma_is_state_independent
  (fsolve : (complex -> complex) -> complex -> Matlab.fsolve_out complex)
  (sigmas1 sigmas2 : list complex)
  (t1 s1 sdot1 sddot1 eps1 t2 s2 sdot2 sddot2 eps2 : complex) :
  (exists w1 w2 : Matlab.workspace,
     Matlab.wagner_body fsolve sigmas1 t1 s1 sdot1 sddot1 eps1 = Returned w1
     /\ Matlab.wagner_body fsolve sigmas2 t2 s2 sdot2 sddot2 eps2 = Returned w2
     /\ Matlab.ws_sigma_max w1 = Matlab.ws_sigma_max w2
     /\ Matlab.ws_sigma_max w1 = Matlab.x (fsolve Matlab.zero_fun Matlab.seed))
  /\ (exists sigma0 : R,
        9 / 100 < sigma0 < 1 / 10
        /\ Matlab.zero_fun (RtoC sigma0) = RtoC 0
        /\ forall sigma, 0 < sigma -> Matlab.zero_fun (RtoC sigma) = RtoC 0 -> sigma = sigma0).
Proof.
  split.
  - do 2 eexists. split; [apply wagner_body_returns|].
    split; [apply wagner_body_returns|]. split; reflexivity.
  - destruct spec_zero_fun_root as [sigma0 [Hbr [Hzero Huniq]]].
    exists sigma0. split; [exact Hbr|]. split.
    + rewrite zero_fun_real by lra. now rewrite Hzero.
    + intros sigma Hpos Hsigma. apply Huniq; [exact Hpos|].
      rewrite zero_fun_real in Hsigma by lra.
      now injection Hsigma.
Qed.

(** C7 as stated fails in its value: no zero of [zero_fun] lies within
    1e-6 of 0.0233. *)
Lemma no_zero_near_seed :
  ~ (exists sigma : R,
       Rabs (sigma - 233 / 10000) <= 1 / 1000000
       /\ Matlab.zero_fun (RtoC sigma) = RtoC 0).
Proof.
  intros [sigma [Hnear Hzero]].
  assert (Hlo : - (1 / 1000000) <= sigma - 233 / 10000 <= 1 / 1000000).
  { unfold Rabs in Hnear. destruct (Rcase_abs (sigma - 233 / 10000)); lra. }
  rewrite zero_fun_real in Hzero by lra.
  injection Hzero as Hzero.
  assert (H : spec_zero_fun sigma < 0) by (apply spec_zero_fun_low; lra).
  lra.
Qed.

(** * Samples beyond the turnover point *)

Lemma re_csqrt_over_neg (b k rad : R) :
  rad < 0 ->
  re (crdivide (ctimes (RtoC b) (csqrt (RtoC rad))) (RtoC k)) = 0.
Proof.
  intros Hrad. rewrite csqrt_neg by exact Hrad.
  unfold crdivide, ctimes, RtoC. simpl.
  unfold Rdiv. rewrite !Rmult_0_r, !Rmult_0_l, Rminus_0_r, Rplus_0_r.
  now rewrite !Rmult_0_l.
Qed.

Section BeyondTurnover.
Variables t s sdot sddot eps : R.
Hypothesis Hts : 0 < t - s.
Hypothesis Heps : 0 < eps.

Lemma outer_p_real_argument (rhat t' : R) :
  Matlab.outer_p (RtoC t) (RtoC s) (RtoC sdot) (RtoC sddot) (RtoC eps) (RtoC rhat) (RtoC t')
  = ctimes (RtoC (1 / eps))
      (cplus
         (crdivide
            (RtoC (4 * (2 * (spec_d t s * spec_d t s) - rhat * rhat)
                   * (spec_ddot t s sdot * spec_ddot t s sdot)))
            (ctimes (RtoC (3 * PI))
                    (csqrt (RtoC (spec_d t s * spec_d t s - rhat * rhat)))))
         (crdivide
            (ctimes (RtoC (4 * spec_d t s * spec_dddot t s sdot sddot))
                    (csqrt (RtoC (spec_d t s * spec_d t s - rhat * rhat))))
            (RtoC (3 * PI)))).
Proof.
  unfold Matlab.outer_p.
  rewrite (d_real Hts), (ddot_real sdot Hts), (dddot_real sdot sddot Hts).
  real_ops. reflexivity.
Qed.

(** A sample whose local offset is positive lies beyond the turnover
    point: the radicands of the outer and of the overlap term are
    negative there, both terms are imaginary, and the pressure returned
    for the sample is the inner pressure alone. *)
Lemma composite_beyond_turnover (sigma : R) :
  0 <= sigma ->
  0 < spec_tilde_r t s sigma ->
  Matlab.composite (RtoC t) (RtoC s) (RtoC sdot) (RtoC sddot) (RtoC eps) (RtoC sigma)
  = RtoC (spec_inner_p t s sdot eps sigma).
Proof.
  intros Hsigma Htr.
  unfold Matlab.composite.
  rewrite (@inner_r_real t s Hts eps sigma t Heps Hsigma).
  rewrite (@inner_p_real t s sdot Hts eps sigma t Hsigma).
  exact_ops. rewrite crdivide_real.
  rewrite outer_p_real_argument, (overlap_real_argument sdot Hts Heps).
  pose proof (spec_d_pos Hts) as Hd.
  set (D := spec_d t s) in *. set (tr := spec_tilde_r t s sigma) in *.
  assert (Hr : spec_inner_r t s eps sigma = eps * (D + eps * eps * tr)).
  { unfold spec_inner_r. fold D tr. ring. }
  rewrite Hr.
  assert (He2 : 0 < eps * eps) by now apply Rmult_lt_0_compat.
  assert (Hrhat : eps * (D + eps * eps * tr) / eps = D + eps * eps * tr)
    by (field; lra).
  rewrite Hrhat.
  assert (Hout : D * D - (D + eps * eps * tr) * (D + eps * eps * tr) < 0).
  { assert (0 < eps * eps * tr) by now apply Rmult_lt_0_compat. nra. }
  assert (Hov : D / (eps * eps) - eps * (D + eps * eps * tr) / (eps * eps * eps) < 0).
  { replace (D / (eps * eps) - eps * (D + eps * eps * tr) / (eps * eps * eps))
      with (- tr) by (field; lra). lra. }
  unfold creal. f_equal.
  cbn [re cminus cplus RtoC].
  rewrite (re_over_csqrt_neg _ _ Hov).
  set (z := cplus _ _).
  assert (Hz : re z = 0).
  { unfold z. cbn [re cplus].
    rewrite (re_over_csqrt_neg _ _ Hout), (re_csqrt_over_neg _ _ Hout). lra. }
  unfold ctimes. cbn [re im RtoC]. rewrite Hz. lra.
Qed.
End BeyondTurnover.

(** * More on the slicing, for every arithmetic *)

Section SlicingFacts.
Context {C : Type} {num : Matlab.MatlabNum C}.
Variable fsolve : (C -> C) -> C -> Matlab.fsolve_out C.

Import Matlab.
Local Open Scope matlab_scope.

Lemma find_from_upper (mask : list bool) :
  forall n, Forall (fun i => i < n + length mask)%nat (find_from n mask).
Proof.
  induction mask as [|b mask IH]; intros n; simpl; [constructor|].
  assert (Htl : Forall (fun i => i < n + S (length mask))%nat (find_from (S n) mask)).
  { eapply Forall_impl; [|apply IH]. simpl. intros; lia. }
  destruct b; simpl; [constructor; [lia|exact Htl] | exact Htl].
Qed.

Lemma filter_none (A : Type) (p : A -> bool) (l : list A) :
  (forall a, In a l -> p a = false) -> filter p l = [].
Proof.
  induction l as [|a l IH]; intros H; simpl; [reflexivity|].
  rewrite (H a (or_introl eq_refl)). apply IH. intros b Hb. apply H. now right.
Qed.

Lemma filter_idem (A : Type) (p : A -> bool) (l : list A) :
  filter p (filter p l) = filter p l.
Proof.
  induction l as [|a l IH]; simpl; [reflexivity|].
  destruct (p a) eqn:Hp; simpl; [rewrite Hp; now rewrite IH | exact IH].
Qed.

(** X1: when no sample has a radius that [>] finds positive (the empty
    sample vector is the first case), the call still returns: both
    vectors are empty and [pmax] is computed as usual. *)
Theorem no_positive_radius_empty_profile (sigmas : list C) (t s sdot sddot eps : C) :
  (forall sigma, In sigma sigmas -> (inner_r t s eps sigma t > int 0) = false) ->
  wagner_pressure fsolve sigmas t s sdot sddot eps
  = Returned ([], [], pmax fsolve t s sdot sddot eps).
Proof.
  intros Hnone. rewrite wagner_pressure_returns.
  unfold retained. rewrite (filter_none _ _ Hnone). reflexivity.
Qed.

(** X2: the profile is computed sample by sample.  The profile of two
    sample vectors put end to end is the profile of the first followed by
    the profile of the second, with the same [pmax]. *)
Theorem profile_of_concatenation (sigmas1 sigmas2 : list C) (t s sdot sddot eps : C) :
  exists (rs1 ps1 rs2 ps2 : list C) (pm : C),
    wagner_pressure fsolve sigmas1 t s sdot sddot eps = Returned (rs1, ps1, pm)
    /\ wagner_pressure fsolve sigmas2 t s sdot sddot eps = Returned (rs2, ps2, pm)
    /\ wagner_pressure fsolve (sigmas1 ++ sigmas2) t s sdot sddot eps
       = Returned (rs1 ++ rs2, ps1 ++ ps2, pm).
Proof.
  do 5 eexists. split; [apply wagner_pressure_returns|].
  split; [apply wagner_pressure_returns|].
  rewrite wagner_pressure_returns. unfold retained.
  now rewrite filter_app, !map_app.
Qed.

(** X3: the samples that survive the slicing, the value [sigmas] has
    when the function returns, give back the same radii and pressures
    when the function is called on them again; there are as many of them
    as radii. *)
Theorem profile_of_retained_samples (sigmas : list C) (t s sdot sddot eps : C) :
  exists w : workspace,
    wagner_body fsolve sigmas t s sdot sddot eps = Returned w
    /\ wagner_pressure fsolve (ws_sigmas w) t s sdot sddot eps
       = Returned (ws_rs w, ws_ps w, ws_pmax w)
    /\ length (ws_sigmas w) = length (ws_rs w).
Proof.
  eexists. split; [apply wagner_body_returns|]. cbn [ws_sigmas ws_rs ws_ps ws_pmax].
  split; [|now rewrite length_map].
  rewrite wagner_pressure_returns. unfold retained. now rewrite filter_idem.
Qed.

(** X4: [all_rs] has the length of the sample vector, every subscript in
    [pos_idxs] lies between 1 and that length, and no more radii are
    returned than samples were given. *)
Theorem pos_idxs_in_range (sigmas : list C) (t s sdot sddot eps : C) :
  exists w : workspace,
    wagner_body fsolve sigmas t s sdot sddot eps = Returned w
    /\ length (ws_all_rs w) = length sigmas
    /\ Forall (fun i => 1 <= i <= length sigmas)%nat (ws_pos_idxs w)
    /\ (length (ws_rs w) <= length sigmas)%nat.
Proof.
  eexists. split; [apply wagner_body_returns|]. cbn [ws_all_rs ws_pos_idxs ws_rs].
  split; [now rewrite length_map|]. split.
  - unfold find. apply Forall_forall. intros i Hi.
    pose proof (find_from_bounds
                  (map (fun r => r > int 0)
                       (map (fun sigma => inner_r t s eps sigma t) sigmas)) 1) as Hlo.
    pose proof (find_from_upper
                  (map (fun r => r > int 0)
                       (map (fun sigma => inner_r t s eps sigma t) sigmas)) 1) as Hhi.
    rewrite Forall_forall in Hlo, Hhi.
    specialize (Hlo i Hi). specialize (Hhi i Hi).
    rewrite !length_map in Hhi. lia.
  - rewrite length_map. unfold retained. apply filter_length_le.
Qed.
End SlicingFacts.

(** * More on the values, in exact arithmetic *)

Lemma spec_J_pos (t s : R) : 0 < t - s -> 0 < spec_J t s.
Proof.
  intros Hts. unfold spec_J.
  assert (0 < Rpower (t - s) (3 / 2)) by (unfold Rpower; apply exp_pos).
  assert (0 < sqrt 3) by (apply sqrt_lt_R0; lra).
  pose proof PI_RGT_0.
  apply Rdiv_lt_0_compat; [lra|]. now apply Rmult_lt_0_compat.
Qed.

Lemma spec_tilde_r_zero_fun (t s sigma : R) :
  spec_tilde_r t s sigma = - (spec_J t s / PI) * spec_zero_fun sigma.
Proof. reflexivity. Qed.

Lemma spec_tilde_r_pos (t s sigma : R) :
  0 < t - s -> spec_zero_fun sigma < 0 -> 0 < spec_tilde_r t s sigma.
Proof.
  intros Hts Hf. rewrite spec_tilde_r_zero_fun.
  pose proof (spec_J_pos Hts). pose proof PI_RGT_0.
  assert (0 < spec_J t s / PI) by now apply Rdiv_lt_0_compat.
  nra.
Qed.

Lemma spec_tilde_r_neg (t s sigma : R) :
  0 < t - s -> 0 < spec_zero_fun sigma -> spec_tilde_r t s sigma < 0.
Proof.
  intros Hts Hf. rewrite spec_tilde_r_zero_fun.
  pose proof (spec_J_pos Hts). pose proof PI_RGT_0.
  assert (0 < spec_J t s / PI) by now apply Rdiv_lt_0_compat.
  nra.
Qed.

Lemma cgt_zero_real (a : R) : Matlab.gt (RtoC a) (Matlab.int 0) = true <-> 0 < a.
Proof.
  rewrite int_exact. exact_ops. unfold cgt. simpl.
  destruct (Rlt_dec 0 a); split; intros; try assumption; try reflexivity; try discriminate.
  contradiction.
Qed.

Section SampleRegions.
Variables t s sdot sddot eps : R.
Hypothesis Hts : 0 < t - s.
Hypothesis Heps : 0 < eps.

(** X5: a sample below the zero of [zero_fun] (where [zero_fun] is
    negative) is always kept, and its pressure is the inner pressure
    alone: there the outer and the overlap term are imaginary and
    [real] drops them. *)
Theorem pressure_below_the_zero (sigma : R) :
  0 < sigma ->
  re (Matlab.zero_fun (RtoC sigma)) < 0 ->
  Matlab.gt (Matlab.inner_r (RtoC t) (RtoC s) (RtoC eps) (RtoC sigma) (RtoC t))
            (Matlab.int 0) = true
  /\ Matlab.composite (RtoC t) (RtoC s) (RtoC sdot) (RtoC sddot) (RtoC eps) (RtoC sigma)
     = Matlab.inner_p (RtoC t) (RtoC s) (RtoC sdot) (RtoC eps) (RtoC sigma) (RtoC t).
Proof.
  intros Hsigma Hf.
  rewrite zero_fun_real in Hf by lra. cbn [re RtoC] in Hf.
  pose proof (spec_tilde_r_pos Hts Hf) as Htr.
  assert (Hs0 : 0 <= sigma) by lra.
  split.
  - rewrite (@inner_r_real t s Hts eps sigma t Heps Hs0). apply cgt_zero_real.
    unfold spec_inner_r. pose proof (spec_d_pos Hts).
    assert (0 < eps ^ 3) by (apply pow_lt; exact Heps).
    assert (0 < eps * spec_d t s) by now apply Rmult_lt_0_compat.
    assert (0 < eps ^ 3 * spec_tilde_r t s sigma) by now apply Rmult_lt_0_compat.
    lra.
  - rewrite (composite_beyond_turnover sdot sddot Hts Heps Hs0 Htr).
    now rewrite (@inner_p_real t s sdot Hts eps sigma t Hs0).
Qed.
Lemma creal_of_real (z : complex) : isreal z -> creal z = z.
Proof.
  destruct z as [a b]. unfold isreal, creal, RtoC. simpl. now intros ->.
Qed.

(** X6: for a kept sample above the zero of [zero_fun] (where
    [zero_fun] is positive) the sum [inner_p + outer_p - overlap] is
    already real: [real] drops nothing. *)
Theorem pressure_above_the_zero (sigma : R) :
  0 < sigma ->
  0 < re (Matlab.zero_fun (RtoC sigma)) ->
  Matlab.gt (Matlab.inner_r (RtoC t) (RtoC s) (RtoC eps) (RtoC sigma) (RtoC t))
            (Matlab.int 0) = true ->
  Matlab.composite (RtoC t) (RtoC s) (RtoC sdot) (RtoC sddot) (RtoC eps) (RtoC sigma)
  = Matlab.minus
      (Matlab.plus
         (Matlab.inner_p (RtoC t) (RtoC s) (RtoC sdot) (RtoC eps) (RtoC sigma) (RtoC t))
         (Matlab.outer_p (RtoC t) (RtoC s) (RtoC sdot) (RtoC sddot) (RtoC eps)
            (Matlab.rdivide
               (Matlab.inner_r (RtoC t) (RtoC s) (RtoC eps) (RtoC sigma) (RtoC t))
               (RtoC eps))
            (RtoC t)))
      (Matlab.overlap (RtoC t) (RtoC s) (RtoC sdot) (RtoC eps)
         (Matlab.inner_r (RtoC t) (RtoC s) (RtoC eps) (RtoC sigma) (RtoC t)) (RtoC t)).
Proof.
  intros Hsigma Hf Hkept.
  rewrite zero_fun_real in Hf by lra. cbn [re RtoC] in Hf.
  pose proof (spec_tilde_r_neg Hts Hf) as Htr.
  assert (Hs0 : 0 <= sigma) by lra.
  unfold Matlab.composite.
  rewrite (@inner_r_real t s Hts eps sigma t Heps Hs0) in *.
  apply cgt_zero_real in Hkept.
  rewrite (@inner_p_real t s sdot Hts eps sigma t Hs0).
  exact_ops. rewrite crdivide_real.
  rewrite outer_p_real_argument by assumption.
  rewrite (overlap_real_argument sdot Hts Heps).
  pose proof (spec_d_pos Hts) as Hd.
  set (D := spec_d t s) in *. set (tr := spec_tilde_r t s sigma) in *.
  assert (Hr : spec_inner_r t s eps sigma = eps * (D + eps * eps * tr)).
  { unfold spec_inner_r. fold D tr. ring. }
  rewrite Hr in *.
  assert (He2 : 0 < eps * eps) by now apply Rmult_lt_0_compat.
  assert (Hrhat : eps * (D + eps * eps * tr) / eps = D + eps * eps * tr)
    by (field; lra).
  rewrite Hrhat.
  assert (Hrpos : 0 < D + eps * eps * tr) by nra.
  assert (Hout : 0 <= D * D - (D + eps * eps * tr) * (D + eps * eps * tr)).
  { assert (eps * eps * tr < 0) by nra. nra. }
  assert (Hov : 0 <= D / (eps * eps) - eps * (D + eps * eps * tr) / (eps * eps * eps)).
  { replace (D / (eps * eps) - eps * (D + eps * eps * tr) / (eps * eps * eps))
      with (- tr) by (field; lra). lra. }
  rewrite (csqrt_nonneg Hout), (csqrt_nonneg Hov).
  repeat first
    [ rewrite cplus_real | rewrite cminus_real | rewrite ctimes_real
    | rewrite crdivide_real ].
  apply creal_of_real. reflexivity.
Qed.

Lemma spec_inner_r_decreasing (sigma1 sigma2 : R) :
  0 < sigma1 -> sigma1 < sigma2 ->
  spec_inner_r t s eps sigma2 < spec_inner_r t s eps sigma1.
Proof.
  intros H1 H12. unfold spec_inner_r. rewrite !spec_tilde_r_zero_fun.
  pose proof (spec_zero_fun_increasing H1 H12) as Hf.
  pose proof (spec_J_pos Hts). pose proof PI_RGT_0.
  assert (Hc : 0 < spec_J t s / PI) by now apply Rdiv_lt_0_compat.
  assert (He3 : 0 < eps ^ 3) by (apply pow_lt; exact Heps).
  assert (Hk : 0 < eps ^ 3 * (spec_J t s / PI)) by now apply Rmult_lt_0_compat.
  nra.
Qed.

(** X7: the radius decreases strictly as the sample grows, so the
    samples kept are closed downwards: below a kept sample every
    positive sample is kept too. *)
Theorem retained_is_downward_closed (sigma1 sigma2 : R) :
  0 < sigma1 -> sigma1 < sigma2 ->
  re (Matlab.inner_r (RtoC t) (RtoC s) (RtoC eps) (RtoC sigma2) (RtoC t))
  < re (Matlab.inner_r (RtoC t) (RtoC s) (RtoC eps) (RtoC sigma1) (RtoC t))
  /\ (Matlab.gt (Matlab.inner_r (RtoC t) (RtoC s) (RtoC eps) (RtoC sigma2) (RtoC t))
                (Matlab.int 0) = true ->
      Matlab.gt (Matlab.inner_r (RtoC t) (RtoC s) (RtoC eps) (RtoC sigma1) (RtoC t))
                (Matlab.int 0) = true).
Proof.
  intros H1 H12.
  assert (Hs1 : 0 <= sigma1) by lra. assert (Hs2 : 0 <= sigma2) by lra.
  rewrite (@inner_r_real t s Hts eps sigma1 t Heps Hs1).
  rewrite (@inner_r_real t s Hts eps sigma2 t Heps Hs2).
  pose proof (spec_inner_r_decreasing H1 H12) as Hdec.
  split; [exact Hdec|].
  rewrite !cgt_zero_real. lra.
Qed.

(** X8: the inner pressure is never negative and is largest at
    [sigma = 1], where it is [ddot^2 / (2 eps^2)]. *)
Theorem inner_pressure_bounds (sigma : R) :
  0 <= sigma ->
  0 <= re (Matlab.inner_p (RtoC t) (RtoC s) (RtoC sdot) (RtoC eps) (RtoC sigma) (RtoC t))
       <= re (Matlab.inner_p (RtoC t) (RtoC s) (RtoC sdot) (RtoC eps) (RtoC 1) (RtoC t))
  /\ Matlab.inner_p (RtoC t) (RtoC s) (RtoC sdot) (RtoC eps) (RtoC 1) (RtoC t)
     = RtoC (spec_ddot t s sdot ^ 2 / (2 * eps ^ 2)).
Proof.
  intros Hsigma.
  rewrite (@inner_p_real t s sdot Hts eps sigma t Hsigma).
  rewrite (@inner_p_real t s sdot Hts eps 1 t Rle_0_1).
  cbn [re RtoC]. unfold spec_inner_p. rewrite sqrt_1.
  set (k := 1 / eps ^ 2 * 2 * spec_ddot t s sdot ^ 2).
  assert (He2 : 0 < eps ^ 2) by (apply pow_lt; exact Heps).
  assert (Hk : 0 <= k).
  { unfold k. assert (0 <= spec_ddot t s sdot ^ 2) by apply pow2_ge_0.
    assert (0 < 1 / eps ^ 2) by (apply Rdiv_lt_0_compat; lra).
    nra. }
  pose proof (sqrt_pos sigma) as Hx. set (x := sqrt sigma) in *.
  assert (Hden : 0 < (1 + x) ^ 2) by (apply pow_lt; lra).
  assert (Hq : 0 <= x / (1 + x) ^ 2 <= 1 / 4).
  { split.
    - apply Rmult_le_pos; [exact Hx|]. left. now apply Rinv_0_lt_compat.
    - apply Rmult_le_reg_r with ((1 + x) ^ 2); [exact Hden|].
      unfold Rdiv. rewrite Rmult_assoc, Rinv_l by lra.
      pose proof (Rle_0_sqr (1 - x)) as Hsq. unfold Rsqr in Hsq. simpl. lra. }
  split.
  - replace (k * x / (1 + x) ^ 2) with (k * (x / (1 + x) ^ 2)) by (field; lra).
    replace (k * 1 / (1 + 1) ^ 2) with (k * (1 / 4)) by field.
    nra.
  - f_equal. unfold k. field. lra.
Qed.
End SampleRegions.

Section PeakLocation.
Variables t s eps : R.
Hypothesis Hts : 0 < t - s.
Hypothesis Heps : 0 < eps.

(** X9: at the radius of a sample the radicand of the overlap term is
    minus the local offset [tilde_r] of the sample; and the sample is a
    zero of [zero_fun] exactly when its radius is [eps * d].  At the zero
    the solver looks for, the overlap term of the profile thus has a zero
    radicand under its division. *)
Theorem overlap_radicand_at_a_sample (sigma : R) :
  0 <= sigma ->
  Matlab.minus
    (Matlab.rdivide (Matlab.d (RtoC t) (RtoC s)) (Matlab.power (RtoC eps) (Matlab.int 2)))
    (Matlab.rdivide (Matlab.inner_r (RtoC t) (RtoC s) (RtoC eps) (RtoC sigma) (RtoC t))
                    (Matlab.power (RtoC eps) (Matlab.int 3)))
  = Matlab.uminus (Matlab.tilde_r (RtoC t) (RtoC s) (RtoC sigma) (RtoC t))
  /\ (Matlab.zero_fun (RtoC sigma) = RtoC 0
      <-> Matlab.inner_r (RtoC t) (RtoC s) (RtoC eps) (RtoC sigma) (RtoC t)
          = Matlab.times (RtoC eps) (Matlab.d (RtoC t) (RtoC s))).
Proof.
  intros Hsigma.
  rewrite (@inner_r_real t s Hts eps sigma t Heps Hsigma).
  rewrite (@tilde_r_real t s Hts sigma t Hsigma).
  rewrite (d_real Hts), zero_fun_real by exact Hsigma.
  real_ops. rewrite (cpower_pos 3 Heps), (Rpower_3 Heps). real_ops.
  assert (He3 : 0 < eps ^ 3) by (apply pow_lt; exact Heps).
  split.
  - f_equal. unfold spec_inner_r. field. lra.
  - pose proof (spec_J_pos Hts) as HJ. pose proof PI_RGT_0 as Hpi.
    assert (Hc : 0 < spec_J t s / PI) by now apply Rdiv_lt_0_compat.
    unfold spec_inner_r. rewrite spec_tilde_r_zero_fun.
    split.
    + intros H. injection H as H. rewrite H. f_equal. ring.
    + intros H. injection H as H. f_equal.
      assert (Hprod : eps ^ 3 * (spec_J t s / PI) * spec_zero_fun sigma = 0) by lra.
      apply Rmult_integral in Hprod. destruct Hprod as [Hprod|Hprod]; [|exact Hprod].
      apply Rmult_integral in Hprod. destruct Hprod; lra.
Qed.
End PeakLocation.

(** X11: when [t - s > 0] the turnover position and the jet thickness
    are positive; the turnover point advances when [sdot < 1], and then
    slows down when [sddot >= 0]. *)
Theorem kinematics_signs (t s sdot sddot : R) :
  0 < t - s ->
  0 < re (Matlab.d (RtoC t) (RtoC s))
  /\ 0 < re (Matlab.J (RtoC t) (RtoC s))
  /\ (sdot < 1 -> 0 < re (Matlab.ddot (RtoC t) (RtoC s) (RtoC sdot)))
  /\ (sdot < 1 -> 0 <= sddot ->
      re (Matlab.dddot (RtoC t) (RtoC s) (RtoC sdot) (RtoC sddot)) < 0).
Proof.
  intros Hts.
  rewrite (d_real Hts), (J_real Hts), (ddot_real sdot Hts), (dddot_real sdot sddot Hts).
  cbn [re RtoC].
  assert (H3 : 0 < sqrt 3) by (apply sqrt_lt_R0; lra).
  assert (Hsq : 0 < sqrt (t - s)) by (apply sqrt_lt_R0; lra).
  assert (Hpow : 0 < Rpower (t - s) (3 / 2)) by (unfold Rpower; apply exp_pos).
  split; [now apply spec_d_pos|]. split; [now apply spec_J_pos|]. split.
  - intros Hsdot. unfold spec_ddot.
    apply Rdiv_lt_0_compat; [|exact Hsq]. nra.
  - intros Hsdot Hsddot. unfold spec_dddot.
    assert (Hnum : 0 < (1 - sdot) ^ 2 + 2 * (t - s) * sddot).
    { assert (0 < (1 - sdot) ^ 2) by (apply pow_lt; lra). nra. }
    assert (Hq : 0 < (sqrt 3 / 4) * ((1 - sdot) ^ 2 + 2 * (t - s) * sddot)
                     / Rpower (t - s) (3 / 2)).
    { apply Rdiv_lt_0_compat; [|exact Hpow]. apply Rmult_lt_0_compat; lra. }
    replace (- (sqrt 3 / 4) * ((1 - sdot) ^ 2 + 2 * (t - s) * sddot)
             / Rpower (t - s) (3 / 2))
      with (- ((sqrt 3 / 4) * ((1 - sdot) ^ 2 + 2 * (t - s) * sddot)
               / Rpower (t - s) (3 / 2))) by (field; lra).
    lra.
Qed.

Lemma zero_fun_negative_at_low : re (Matlab.zero_fun (RtoC (9 / 100))) < 0.
Proof. rewrite zero_fun_real by lra. apply spec_zero_fun_at_low. Qed.

Lemma zero_fun_positive_at_high : 0 < re (Matlab.zero_fun (RtoC (1 / 10))).
Proof. rewrite zero_fun_real by lra. apply spec_zero_fun_at_high. Qed.

Lemma sample_tenth_is_kept :
  Matlab.gt (Matlab.inner_r (RtoC (1 / 100)) (RtoC 0) (RtoC 2) (RtoC (1 / 10)) (RtoC (1 / 100)))
            (Matlab.int 0) = true.
Proof.
  assert (Hts : 0 < 1 / 100 - 0) by lra.
  assert (Heps : 0 < 2) by lra.
  rewrite (@inner_r_real (1 / 100) 0 Hts 2 (1 / 10) (1 / 100)) by lra.
  apply cgt_zero_real.
  assert (Hbr : 1 / 20 < 1 / 10 < 1 / 5) by lra.
  destruct (spec_tilde_r_small Hbr) as [Htr _].
  pose proof (spec_d_pos Hts) as Hd. pose proof (spec_d_sqr Hts) as Hd2.
  unfold spec_inner_r.
  set (D := spec_d (1 / 100) 0) in *.
  assert (17 / 100 < D) by nra.
  lra.
Qed.

Lemma no_positive_radius_empty_profile_witness :
  (forall sigma, In sigma [RtoC 1] ->
     Matlab.gt (Matlab.inner_r (RtoC 1) (RtoC 0) (RtoC 0) sigma (RtoC 1)) (Matlab.int 0)
     = false)
  /\ Matlab.wagner_pressure fsolve_stalled [RtoC 1] (RtoC 1) (RtoC 0) (RtoC 0) (RtoC 0) (RtoC 0)
     = Returned ([], [], Matlab.pmax fsolve_stalled (RtoC 1) (RtoC 0) (RtoC 0) (RtoC 0) (RtoC 0)).
Proof.
  assert (H : forall sigma, In sigma [RtoC 1] ->
     Matlab.gt (Matlab.inner_r (RtoC 1) (RtoC 0) (RtoC 0) sigma (RtoC 1)) (Matlab.int 0)
     = false).
  { intros sigma _. unfold Matlab.inner_r. rewrite !int_exact. exact_ops.
    unfold cgt, cplus, ctimes, cpower, is_zero. cbn [re im RtoC].
    destruct (Req_EM_T 0 0) as [_|Hn]; [|contradiction Hn; reflexivity].
    destruct (Req_EM_T 3 0) as [H3|_]; [lra|].
    cbn [re im RtoC].
    destruct (Rlt_dec 0 _) as [Hlt|_]; [|reflexivity].
    exfalso. lra. }
  split; [exact H|].
  exact (@no_positive_radius_empty_profile complex exact fsolve_stalled [RtoC 1]
           (RtoC 1) (RtoC 0) (RtoC 0) (RtoC 0) (RtoC 0) H).
Defined.

Lemma pressure_below_the_zero_witness :
  (0 < 1 - 0 /\ 0 < 1 /\ 0 < 9 / 100 /\ re (Matlab.zero_fun (RtoC (9 / 100))) < 0)
  /\ Matlab.composite (RtoC 1) (RtoC 0) (RtoC 0) (RtoC 0) (RtoC 1) (RtoC (9 / 100))
     = Matlab.inner_p (RtoC 1) (RtoC 0) (RtoC 0) (RtoC 1) (RtoC (9 / 100)) (RtoC 1).
Proof.
  assert (Hts : 0 < 1 - 0) by lra.
  assert (Heps : 0 < 1) by lra.
  assert (Hs : 0 < 9 / 100) by lra.
  split; [repeat split; try lra; apply zero_fun_negative_at_low|].
  apply (@pressure_below_the_zero 1 0 0 0 1 Hts Heps (9 / 100) Hs zero_fun_negative_at_low).
Defined.

Lemma pressure_above_the_zero_witness :
  (0 < 1 / 100 - 0 /\ 0 < 2 /\ 0 < 1 / 10 /\ 0 < re (Matlab.zero_fun (RtoC (1 / 10))))
  /\ isreal
       (Matlab.minus
          (Matlab.plus
             (Matlab.inner_p (RtoC (1 / 100)) (RtoC 0) (RtoC 0) (RtoC 2) (RtoC (1 / 10))
                (RtoC (1 / 100)))
             (Matlab.outer_p (RtoC (1 / 100)) (RtoC 0) (RtoC 0) (RtoC 0) (RtoC 2)
                (Matlab.rdivide
                   (Matlab.inner_r (RtoC (1 / 100)) (RtoC 0) (RtoC 2) (RtoC (1 / 10))
                      (RtoC (1 / 100)))
                   (RtoC 2))
                (RtoC (1 / 100))))
          (Matlab.overlap (RtoC (1 / 100)) (RtoC 0) (RtoC 0) (RtoC 2)
             (Matlab.inner_r (RtoC (1 / 100)) (RtoC 0) (RtoC 2) (RtoC (1 / 10))
                (RtoC (1 / 100)))
             (RtoC (1 / 100)))).
Proof.
  assert (Hts : 0 < 1 / 100 - 0) by lra.
  assert (Heps : 0 < 2) by lra.
  assert (Hs : 0 < 1 / 10) by lra.
  split; [repeat split; try lra; apply zero_fun_positive_at_high|].
  rewrite <- (@pressure_above_the_zero (1 / 100) 0 0 0 2 Hts Heps (1 / 10) Hs
                zero_fun_positive_at_high sample_tenth_is_kept).
  reflexivity.
Defined.

Lemma retained_is_downward_closed_witness :
  (0 < 1 / 100 - 0 /\ 0 < 2 /\ 0 < 1 / 20 /\ 1 / 20 < 1 / 10)
  /\ Matlab.gt (Matlab.inner_r (RtoC (1 / 100)) (RtoC 0) (RtoC 2) (RtoC (1 / 20)) (RtoC (1 / 100)))
               (Matlab.int 0) = true.
Proof.
  assert (Hts : 0 < 1 / 100 - 0) by lra.
  assert (Heps : 0 < 2) by lra.
  assert (H1 : 0 < 1 / 20) by lra.
  assert (H12 : 1 / 20 < 1 / 10) by lra.
  split; [lra|].
  exact (proj2 (@retained_is_downward_closed (1 / 100) 0 2 Hts Heps (1 / 20) (1 / 10) H1 H12)
               sample_tenth_is_kept).
Defined.

Lemma inner_pressure_bounds_witness :
  (0 < 1 - 0 /\ 0 < 1 /\ 0 <= 4)
  /\ Matlab.inner_p (RtoC 1) (RtoC 0) (RtoC 0) (RtoC 1) (RtoC 1) (RtoC 1)
     = RtoC (spec_ddot 1 0 0 ^ 2 / (2 * 1 ^ 2)).
Proof.
  assert (Hts : 0 < 1 - 0) by lra.
  assert (Heps : 0 < 1) by lra.
  assert (Hs : 0 <= 4) by lra.
  split; [lra|].
  exact (proj2 (@inner_pressure_bounds 1 0 0 1 Hts Heps 4 Hs)).
Defined.

Lemma overlap_radicand_at_a_sample_witness :
  (0 < 1 - 0 /\ 0 < 2 /\ 0 <= 1)
  /\ Matlab.minus
       (Matlab.rdivide (Matlab.d (RtoC 1) (RtoC 0)) (Matlab.power (RtoC 2) (Matlab.int 2)))
       (Matlab.rdivide (Matlab.inner_r (RtoC 1) (RtoC 0) (RtoC 2) (RtoC 1) (RtoC 1))
                       (Matlab.power (RtoC 2) (Matlab.int 3)))
     = Matlab.uminus (Matlab.tilde_r (RtoC 1) (RtoC 0) (RtoC 1) (RtoC 1)).
Proof.
  assert (Hts : 0 < 1 - 0) by lra.
  assert (Heps : 0 < 2) by lra.
  assert (Hs : 0 <= 1) by lra.
  split; [lra|].
  exact (proj1 (@overlap_radicand_at_a_sample 1 0 2 Hts Heps 1 Hs)).
Defined.

Lemma kinematics_signs_witness :
  0 < 1 - 0 /\ 0 < re (Matlab.d (RtoC 1) (RtoC 0)).
Proof.
  split; [lra|].
  apply (@kinematics_signs 1 0 0 0). lra.
Defined.

Lemma radii_are_real_witness :
  (0 < 1 - 0 /\ 0 < 1 /\ Forall (fun sigma => 0 <= sigma) [1])
  /\ exists (rs ps : list complex) (pm : complex),
       Matlab.wagner_pressure fsolve_stalled (map RtoC [1]) (RtoC 1) (RtoC 0) (RtoC 0) (RtoC 0)
         (RtoC 1)
       = Returned (rs, ps, pm)
       /\ Forall isreal rs.
Proof.
  assert (Hts : 0 < 1 - 0) by lra.
  assert (Heps : 0 < 1) by lra.
  assert (Hs : Forall (fun sigma => 0 <= sigma) [1]) by (constructor; [lra|constructor]).
  split; [repeat split; try lra; exact Hs|].
  exact (@radii_are_real fsolve_stalled [1] 1 0 0 0 1 Hts Heps Hs).
Defined.

(** * No error is raised, and which outputs are real *)




Section Radicands.
Variables t s : R.
Hypothesis Hts : 0 < t - s.

(** The radicand of the outer term at a real argument. *)
Lemma outer_radicand_real (rhat : R) :
  Matlab.minus (Matlab.power (Matlab.d (RtoC t) (RtoC s)) (Matlab.int 2))
               (Matlab.power (RtoC rhat) (Matlab.int 2))
  = RtoC (3 * (t - s) - rhat * rhat).
Proof.
  rewrite (d_real Hts). real_ops. f_equal.
  pose proof (spec_d_sqr Hts) as H. simpl in H. lra.
Qed.

(** The radicand of the overlap term at a real argument. *)
Lemma overlap_radicand_real (eps r : R) :
  0 < eps ->
  Matlab.minus
    (Matlab.rdivide (Matlab.d (RtoC t) (RtoC s)) (Matlab.power (RtoC eps) (Matlab.int 2)))
    (Matlab.rdivide (RtoC r) (Matlab.power (RtoC eps) (Matlab.int 3)))
  = RtoC (spec_d t s / (eps * eps) - r / (eps * eps * eps)).
Proof.
  intros Heps. rewrite (d_real Hts). real_ops.
  rewrite (cpower_pos 3 Heps), (Rpower_3 Heps). real_ops. reflexivity.
Qed.
End Radicands.

Section BeyondTurnoverTerms.
Variables t s sdot sddot eps : R.
Hypothesis Hts : 0 < t - s.
Hypothesis Heps : 0 < eps.


End BeyondTurnoverTerms.

(** A complex number that [isreal] accepts is handled as the real number
    it is. *)
Ltac real_arg z H :=
  let a := fresh z in
  let b := fresh z "i" in
  destruct z as [a b]; unfold isreal in H; cbn [re im] in *; subst b; fold (RtoC a) in *.

Section ErrorsAndReals.
Variable fsolve : (complex -> complex) -> complex -> Matlab.fsolve_out complex.

Import Matlab.
Local Open Scope matlab_scope.

(** C5 (as amended): no input makes the call fail with a DomainError.
    The call returns for every input, and the pressures it returns are
    real parts: each element of [ps], and [pmax], is [real] of a sum that
    may be complex.  When [t - s <= 0] the turnover position [d] is the
    imaginary number [i * sqrt (3 (s - t))] (zero when [t = s]).  The
    square root of a negative radicand is [i * sqrt (- radicand)]; so are
    the square root of the outer term, whose radicand [d^2 - rhat^2] is
    negative for an argument beyond the turnover point while [t - s > 0],
    and the square root of the overlap term, whose radicand
    [d/eps^2 - r/eps^3] is negative for a radius beyond [eps * d]. *)
Theorem no_domain_error (sigmas : list complex) (t s sdot sddot eps : complex) :
  let radius := fun sigma => inner_r t s eps sigma t in
  let kept := retained t s eps sigmas in
  let located := x (fsolve zero_fun seed) in
  wagner_pressure fsolve sigmas t s sdot sddot eps
  = Returned
      (map radius kept,
       map (fun sigma =>
              real (inner_p t s sdot eps sigma t
                    + outer_p t s sdot sddot eps (radius sigma / eps) t
                    - overlap t s sdot eps (radius sigma) t))
           kept,
       real (inner_p t s sdot eps located t
             + outer_p t s sdot sddot eps (radius located / eps) t
             - overlap t s sdot eps (radius located / eps) t))
  /\ wagner_pressure fsolve sigmas t s sdot sddot eps <> Raised DomainError
  /\ (isreal t -> isreal s -> (re t - re s <= 0)%R ->
      d t s = Cplx 0 (R_sqrt.sqrt (3 * (re s - re t))))
  /\ (forall radicand : complex,
        isreal radicand -> (re radicand < 0)%R ->
        sqrt radicand = Cplx 0 (R_sqrt.sqrt (- re radicand)))
  /\ (forall rhat : complex,
        isreal t -> isreal s -> isreal rhat ->
        (0 < re t - re s)%R ->
        (3 * (re t - re s) < re rhat * re rhat)%R ->
        sqrt (d t s ^ int 2 - rhat ^ int 2)
        = Cplx 0 (R_sqrt.sqrt (re rhat * re rhat - 3 * (re t - re s))))
  /\ (forall r : complex,
        isreal t -> isreal s -> isreal eps -> isreal r ->
        (0 < re t - re s)%R -> (0 < re eps)%R ->
        (re eps * R_sqrt.sqrt (3 * (re t - re s)) < re r)%R ->
        sqrt (d t s / eps ^ int 2 - r / eps ^ int 3)
        = Cplx 0 (R_sqrt.sqrt (re r / (re eps * re eps * re eps)
                               - R_sqrt.sqrt (3 * (re t - re s)) / (re eps * re eps)))).
Proof.
  intros radius kept located.
  split; [apply wagner_pressure_returns|].
  split; [rewrite wagner_pressure_returns; discriminate|].
  clear radius kept located.
  split; [|split; [|split]].
  - intros Ht Hs Hle. real_arg t Ht. real_arg s Hs.
    unfold d. real_ops. destruct (Req_dec (t0 - s0) 0) as [H0|Hne].
    + rewrite H0, Rmult_0_r. rewrite csqrt_nonneg by lra.
      replace (3 * (s0 - t0))%R with 0%R by lra. now rewrite sqrt_0.
    + rewrite csqrt_neg by lra. do 2 f_equal. lra.
  - intros radicand Hr Hneg. real_arg radicand Hr. exact_ops. now apply csqrt_neg.
  - intros rhat Ht Hs Hr Hts Hlt. real_arg t Ht. real_arg s Hs. real_arg rhat Hr.
    rewrite (outer_radicand_real Hts). exact_ops.
    rewrite csqrt_neg by lra. do 2 f_equal. lra.
  - intros r Ht Hs He Hr Hts Heps Hlt.
    real_arg t Ht. real_arg s Hs. real_arg eps He. real_arg r Hr.
    rewrite (overlap_radicand_real Hts r0 Heps). exact_ops.
    fold (spec_d t0 s0) in Hlt |- *.
    assert (He2 : (0 < eps0 * eps0)%R) by now apply Rmult_lt_0_compat.
    assert (He3 : (0 < eps0 * eps0 * eps0)%R) by now apply Rmult_lt_0_compat.
    assert (Hneg : (spec_d t0 s0 / (eps0 * eps0) - r0 / (eps0 * eps0 * eps0) < 0)%R).
    { replace (spec_d t0 s0 / (eps0 * eps0) - r0 / (eps0 * eps0 * eps0))%R
        with ((eps0 * spec_d t0 s0 - r0) / (eps0 * eps0 * eps0))%R by (field; lra).
      apply Rmult_neg_pos; [lra|]. now apply Rinv_0_lt_compat. }
    rewrite csqrt_neg by exact Hneg. do 2 f_equal. lra.
Qed.
End ErrorsAndReals.


(** The amended C5: at [t = 0], [s = 1] the turnover position is
    [i * sqrt 3]; the square root of [-1] is [i]; at [t = 1], [s = 0] the
    square roots of the outer term at [rhat = 2] and of the overlap term
    at [r = 2], [eps = 1] are imaginary. *)
Lemma no_domain_error_witness :
  (0 - 1 <= 0 /\ Matlab.d (RtoC 0) (RtoC 1) = Cplx 0 (sqrt (3 * (1 - 0))))
  /\ (-1 < 0 /\ Matlab.sqrt (RtoC (-1)) = Cplx 0 (sqrt (- (-1))))
  /\ (0 < 1 - 0 /\ 3 * (1 - 0) < 2 * 2
      /\ Matlab.sqrt
           (Matlab.minus (Matlab.power (Matlab.d (RtoC 1) (RtoC 0)) (Matlab.int 2))
                         (Matlab.power (RtoC 2) (Matlab.int 2)))
         = Cplx 0 (sqrt (2 * 2 - 3 * (1 - 0))))
  /\ (0 < 1 /\ 1 * sqrt (3 * (1 - 0)) < 2
      /\ Matlab.sqrt
           (Matlab.minus
              (Matlab.rdivide (Matlab.d (RtoC 1) (RtoC 0))
                              (Matlab.power (RtoC 1) (Matlab.int 2)))
              (Matlab.rdivide (RtoC 2) (Matlab.power (RtoC 1) (Matlab.int 3))))
         = Cplx 0 (sqrt (2 / (1 * 1 * 1) - sqrt (3 * (1 - 0)) / (1 * 1)))).
Proof.
  assert (Hle : 0 - 1 <= 0) by lra.
  assert (Hneg : -1 < 0) by lra.
  assert (Hts : 0 < 1 - 0) by lra.
  assert (Hout : 3 * (1 - 0) < 2 * 2) by lra.
  assert (Heps : 0 < 1) by lra.
  assert (Hov : 1 * sqrt (3 * (1 - 0)) < 2).
  { assert (H : sqrt (3 * (1 - 0)) < sqrt (2 * 2)) by (apply sqrt_lt_1_alt; lra).
    rewrite sqrt_square in H by lra. lra. }
  destruct (@no_domain_error fsolve_stalled [RtoC 1] (RtoC 0) (RtoC 1) (RtoC 0) (RtoC 0) (RtoC 1))
    as (_ & _ & Hd & Hsqrt & _).
  destruct (@no_domain_error fsolve_stalled [RtoC 1] (RtoC 1) (RtoC 0) (RtoC 0) (RtoC 0) (RtoC 1))
    as (_ & _ & _ & _ & Houter & Hoverlap).
  split; [split; [exact Hle | exact (Hd eq_refl eq_refl Hle)]|].
  split; [split; [exact Hneg | exact (Hsqrt (RtoC (-1)) eq_refl Hneg)]|].
  split; [split; [exact Hts | split; [exact Hout|]]|].
  - exact (Houter (RtoC 2) eq_refl eq_refl eq_refl Hts Hout).
  - split; [exact Heps | split; [exact Hov|]].
    exact (Hoverlap (RtoC 2) eq_refl eq_refl eq_refl eq_refl Hts Heps Hov).
Defined.



(** * The force comparison script *)

Section ScriptFacts.
Import ForceComparison.
Local Open Scope Q_scope.

Lemma linspace_length (a b : Q) (n : nat) : length (linspace a b n) = n.
Proof.
  destruct n as [|[|n]]; [reflexivity|reflexivity|].
  unfold linspace. now rewrite length_map, length_seq.
Qed.

Lemma StronglySorted_map_seq (f : nat -> Q) (n : nat) :
  (forall i j, (i < j)%nat -> f i < f j) ->
  forall a, StronglySorted Qlt (map f (seq a n)).
Proof.
  intros Hf. induction n as [|n IH]; intros a; simpl; constructor.
  - apply IH.
  - apply Forall_forall. intros y Hy. apply in_map_iff in Hy.
    destruct Hy as [j [<- Hj]]. apply in_seq in Hj. apply Hf. lia.
Qed.

Lemma inject_nat_lt (i j : nat) :
  (i < j)%nat -> inject_Z (Z.of_nat i) < inject_Z (Z.of_nat j).
Proof. intros H. rewrite <- Zlt_Qlt. lia. Qed.

Lemma inject_nat_le (i j : nat) :
  (i <= j)%nat -> inject_Z (Z.of_nat i) <= inject_Z (Z.of_nat j).
Proof. intros H. rewrite <- Zle_Qle. lia. Qed.

(** The points of [linspace] between distinct ends: strictly increasing,
    from the first end to the second. *)
Lemma linspace_spec (a b : Q) (n : nat) :
  a < b -> (2 <= n)%nat ->
  StronglySorted Qlt (linspace a b n)
  /\ Forall (fun y => a <= y <= b) (linspace a b n).
Proof.
  intros Hab Hn. destruct n as [|[|n1]]; [lia|lia|].
  unfold linspace.
  set (d := inject_Z (Z.of_nat (S n1))).
  assert (Hd : 0 < d) by (apply (inject_nat_lt (i := 0)); lia).
  assert (Hstep : 0 < (b - a) / d).
  { apply Qlt_shift_div_l; [exact Hd|]. Lqa.lra. }
  split.
  - apply StronglySorted_map_seq. intros i j Hij.
    pose proof (inject_nat_lt Hij) as Hq.
    unfold Qdiv in *.
    set (u := (b - a) * / d) in *.
    setoid_replace (inject_Z (Z.of_nat i) * (b - a) * / d)
      with (inject_Z (Z.of_nat i) * u) by (unfold u; ring).
    setoid_replace (inject_Z (Z.of_nat j) * (b - a) * / d)
      with (inject_Z (Z.of_nat j) * u) by (unfold u; ring).
    Lqa.nra.
  - apply Forall_forall. intros y Hy. apply in_map_iff in Hy.
    destruct Hy as [i [<- Hi]]. apply in_seq in Hi.
    assert (H0 : 0 <= inject_Z (Z.of_nat i)) by (apply (inject_nat_le (i := 0)); lia).
    assert (H1 : inject_Z (Z.of_nat i) <= d) by (apply inject_nat_le; lia).
    unfold Qdiv in *.
    set (u := (b - a) * / d) in *.
    setoid_replace (inject_Z (Z.of_nat i) * (b - a) * / d)
      with (inject_Z (Z.of_nat i) * u) by (unfold u; ring).
    assert (Hdu : d * u == b - a) by (unfold u; field; Lqa.lra).
    split; Lqa.nra.
Qed.

Lemma wagner_t_spec :
  StronglySorted Qlt wagner_t
  /\ Forall (fun t => (1 # 10000000) <= t <= t_max - impact_time) wagner_t.
Proof.
  unfold wagner_t. apply linspace_spec; [reflexivity|lia].
Qed.

(** X12: the script hands [composite_force] 1000 strictly increasing
    times within the limits of the time axis, with as many zeros for
    [s]; at each of them [t - s > 0], so the turnover position [d] of
    [wagner_pressure] is the positive real [sqrt (3 (t - s))] there. *)
Theorem wagner_time_samples :
  length wagner_t = 1000%nat
  /\ length s = length wagner_t
  /\ StronglySorted Qlt wagner_t
  /\ Forall (fun t => fst xlim <= t <= snd xlim) wagner_t
  /\ Forall2 (fun t0 s0 =>
               0 < t0 - s0
               /\ Matlab.d (RtoC (Q2R t0)) (RtoC (Q2R s0))
                  = RtoC (R_sqrt.sqrt (3 * (Q2R t0 - Q2R s0)))
               /\ (0 < re (Matlab.d (RtoC (Q2R t0)) (RtoC (Q2R s0))))%R)
             wagner_t s.
Proof.
  destruct wagner_t_spec as [Hsorted Hrange].
  split; [apply linspace_length|].
  split; [unfold s, zeros; now rewrite length_map|].
  split; [exact Hsorted|].
  split.
  - eapply Forall_impl; [|exact Hrange]. simpl. intros t [Hlo Hhi].
    split; [|exact Hhi].
    apply Qle_trans with (1 # 10000000); [discriminate|exact Hlo].
  - unfold s, zeros. revert Hrange. generalize wagner_t as l.
    induction l as [|t0 l IH]; intros Hrange; cbn [map]; constructor.
    + apply Forall_inv in Hrange. destruct Hrange as [Hlo _].
      assert (Hpos : 0 < t0 - 0).
      { apply Qlt_le_trans with (1 # 10000000); [reflexivity|]. Lqa.lra. }
      assert (HposR : (0 < Q2R t0 - Q2R 0)%R).
      { rewrite <- Q2R_minus. apply Qlt_Rlt in Hpos.
        now rewrite RMicromega.Q2R_0 in Hpos. }
      split; [exact Hpos|]. split.
      * exact (d_real HposR).
      * rewrite (d_real HposR). exact (spec_d_pos HposR).
    + apply IH. now apply Forall_inv_tail in Hrange.
Qed.

Lemma grey_level (n : nat) (sc ec : Q) (k : nat) :
  line_color n sc ec k
  = [ (m n sc ec * inject_Z (Z.of_nat k) + c n sc ec) * 1;
      (m n sc ec * inject_Z (Z.of_nat k) + c n sc ec) * 1;
      (m n sc ec * inject_Z (Z.of_nat k) + c n sc ec) * 1 ].
Proof. reflexivity. Qed.

Lemma grey_level_value (n : nat) (sc ec : Q) (k : nat) :
  (2 <= n)%nat ->
  (m n sc ec * inject_Z (Z.of_nat k) + c n sc ec) * 1
  == sc + (ec - sc) * ((inject_Z (Z.of_nat k) - 1) / (inject_Z (Z.of_nat n) - 1)).
Proof.
  intros Hn. unfold c, m.
  assert (Hd : 1 < inject_Z (Z.of_nat n)) by (apply (inject_nat_lt (i := 1)); lia).
  revert Hd. generalize (inject_Z (Z.of_nat n)) as nq.
  generalize (inject_Z (Z.of_nat k)) as kq.
  intros kq nq Hd. field. Lqa.lra.
Qed.

(** X13: with at least two data directories, the grey level of the
    first line is [start_color], that of the last is [end_color], and
    every level in between lies between the two. *)
Theorem line_colours_interpolate (n : nat) (sc ec : Q) :
  (2 <= n)%nat ->
  Forall2 Qeq (line_color n sc ec 1) [sc; sc; sc]
  /\ Forall2 Qeq (line_color n sc ec n) [ec; ec; ec]
  /\ (ec <= sc ->
      forall k, (1 <= k <= n)%nat ->
        Forall (fun x => ec <= x <= sc) (line_color n sc ec k)).
Proof.
  intros Hn.
  assert (Hd : 1 < inject_Z (Z.of_nat n)) by (apply (inject_nat_lt (i := 1)); lia).
  split; [|split].
  - rewrite grey_level.
    assert (H : (m n sc ec * inject_Z (Z.of_nat 1) + c n sc ec) * 1 == sc).
    { rewrite (grey_level_value sc ec 1 Hn).
      change (inject_Z (Z.of_nat 1)) with 1.
      revert Hd. generalize (inject_Z (Z.of_nat n)) as nq. intros nq Hd.
      field. Lqa.lra. }
    repeat constructor; exact H.
  - rewrite grey_level.
    assert (H : (m n sc ec * inject_Z (Z.of_nat n) + c n sc ec) * 1 == ec).
    { rewrite (grey_level_value sc ec n Hn).
      revert Hd. generalize (inject_Z (Z.of_nat n)) as nq. intros nq Hd.
      field. Lqa.lra. }
    repeat constructor; exact H.
  - intros Hle k [Hk1 Hkn]. rewrite grey_level.
    assert (H : ec <= (m n sc ec * inject_Z (Z.of_nat k) + c n sc ec) * 1 <= sc).
    { rewrite (grey_level_value sc ec k Hn).
      assert (H1 : 1 <= inject_Z (Z.of_nat k)) by (apply (inject_nat_le (i := 1)); lia).
      assert (H2 : inject_Z (Z.of_nat k) <= inject_Z (Z.of_nat n))
        by (apply inject_nat_le; lia).
      set (q := (inject_Z (Z.of_nat k) - 1) / (inject_Z (Z.of_nat n) - 1)).
      assert (Hq : 0 <= q <= 1).
      { unfold q. split.
        - apply Qle_shift_div_l; Lqa.lra.
        - apply Qle_shift_div_r; Lqa.lra. }
      split; Lqa.nra. }
    repeat constructor; apply H.
Qed.

Lemma column_in_range (M : matrix) (j0 : nat) :
  (S j0 <= ncols M)%nat ->
  column M (S j0) = Returned (map (fun i => entry M i j0) (seq 0 (nrows M))).
Proof.
  intros H. unfold column. now rewrite (proj2 (Nat.leb_le _ _) H).
Qed.

Lemma column_out_of_range (M : matrix) (j0 : nat) :
  (ncols M < S j0)%nat -> column M (S j0) = Raised IndexExceedsBounds.
Proof.
  intros H. unfold column.
  destruct (Nat.leb_spec (S j0) (ncols M)); [lia|reflexivity].
Qed.

Lemma loop_body_returns (k : nat) (M : matrix) :
  (6 <= ncols M)%nat ->
  loop_body k M
  = Returned {| xdata := map (fun i => entry M i 0 - impact_time) (seq 0 (nrows M));
                ydata := map (fun i => entry M i 2) (seq 0 (nrows M));
                color := line_color N start_color end_color k |}.
Proof.
  intros H. unfold loop_body.
  rewrite !column_in_range by lia. cbn [bind].
  unfold plot. rewrite !length_map, Nat.eqb_refl. now rewrite map_map.
Qed.

Lemma loop_body_raises (k : nat) (M : matrix) :
  (ncols M < 6)%nat -> loop_body k M = Raised IndexExceedsBounds.
Proof.
  intros H. unfold loop_body.
  destruct (Nat.le_gt_cases 1 (ncols M)) as [H1|H1];
    [rewrite (column_in_range M (j0 := 0)) by lia
    |now rewrite (column_out_of_range M (j0 := 0)) by lia].
  cbn [bind].
  destruct (Nat.le_gt_cases 3 (ncols M)) as [H3|H3];
    [rewrite (column_in_range M (j0 := 2)) by lia
    |now rewrite (column_out_of_range M (j0 := 2)) by lia].
  cbn [bind].
  now rewrite (column_out_of_range M (j0 := 5)) by lia.
Qed.

(** X14: the body of the loop needs a matrix of at least six columns: it
    reads column 6 into [ss], which it never uses, and stops with an
    index error on a narrower matrix.  With six columns it plots column 3
    against column 1 shifted by [impact_time], row for row.  The block
    for the stationary plate needs three columns only. *)
Theorem data_columns_needed (k : nat) (M : matrix) :
  ((6 <= ncols M)%nat ->
     loop_body k M
     = Returned {| xdata := map (fun i => entry M i 0 - impact_time) (seq 0 (nrows M));
                   ydata := map (fun i => entry M i 2) (seq 0 (nrows M));
                   color := line_color N start_color end_color k |})
  /\ ((ncols M < 6)%nat -> loop_body k M = Raised IndexExceedsBounds)
  /\ ((3 <= ncols M)%nat ->
      stationary_plot M
      = Returned {| xdata := map (fun i => entry M i 0 - impact_time) (seq 0 (nrows M));
                    ydata := map (fun i => entry M i 2) (seq 0 (nrows M));
                    color := [0; 0; 0] |})
  /\ ((ncols M < 3)%nat -> stationary_plot M = Raised IndexExceedsBounds).
Proof.
  split; [apply loop_body_returns|]. split; [apply loop_body_raises|]. split.
  - intros H. unfold stationary_plot.
    rewrite !column_in_range by lia. cbn [bind].
    unfold plot. rewrite !length_map, Nat.eqb_refl. now rewrite map_map.
  - intros H. unfold stationary_plot.
    destruct (Nat.le_gt_cases 1 (ncols M)) as [H1|H1];
      [rewrite (column_in_range M (j0 := 0)) by lia
      |now rewrite (column_out_of_range M (j0 := 0)) by lia].
    cbn [bind].
    now rewrite (column_out_of_range M (j0 := 2)) by lia.
Qed.

(** X15: the loop plots one line per matrix, in order, when every matrix
    has six columns, and stops with an index error as soon as one has
    fewer. *)
Theorem loop_plots_all_or_stops (mats : list matrix) :
  forall k,
    (Forall (fun M => (6 <= ncols M)%nat) mats ->
       exists ps, loop_from k mats = Returned ps /\ length ps = length mats)
    /\ (Exists (fun M => (ncols M < 6)%nat) mats ->
        loop_from k mats = Raised IndexExceedsBounds).
Proof.
  induction mats as [|M mats IH]; intros k; split.
  - intros _. exists []. split; reflexivity.
  - intros H. inversion H.
  - intros H. inversion H as [|? ? HM Hrest]; subst.
    destruct (proj1 (IH (S k)) Hrest) as [ps [Hps Hlen]].
    cbn [loop_from].
    rewrite (@loop_body_returns k M HM). cbn [bind].
    rewrite Hps. cbn [bind]. eexists. split; [reflexivity|]. simpl. now rewrite Hlen.
  - intros H. cbn [loop_from].
    destruct (Nat.le_gt_cases 6 (ncols M)) as [H6|H6].
    + rewrite (@loop_body_returns k M H6). cbn [bind].
      inversion H as [? ? HM|? ? Hrest]; subst; [lia|].
      now rewrite (proj2 (IH (S k)) Hrest).
    + now rewrite (@loop_body_raises k M H6).
Qed.
End ScriptFacts.

(** The grey levels of the script: four values of beta, from 0.75 down
    to 0.3. *)
Example script_colours :
  map (fun k => map Qred (ForceComparison.line_color ForceComparison.N
                            ForceComparison.start_color ForceComparison.end_color k))
      [1; 2; 3; 4]%nat
  = [ [3 # 4; 3 # 4; 3 # 4]; [3 # 5; 3 # 5; 3 # 5];
      [9 # 20; 9 # 20; 9 # 20]; [3 # 10; 3 # 10; 3 # 10] ]%Q.
Proof. reflexivity. Qed.

Lemma line_colours_interpolate_witness :
  (2 <= ForceComparison.N)%nat
  /\ Forall2 Qeq
       (ForceComparison.line_color ForceComparison.N ForceComparison.start_color
          ForceComparison.end_color ForceComparison.N)
       [ForceComparison.end_color; ForceComparison.end_color; ForceComparison.end_color].
Proof.
  assert (H : (2 <= ForceComparison.N)%nat) by (unfold ForceComparison.N; simpl; lia).
  split; [exact H|].
  exact (proj1 (proj2 (@line_colours_interpolate ForceComparison.N
                         ForceComparison.start_color ForceComparison.end_color H))).
Defined.

(** * The simulation script *)

Section SimulationFacts.
Import Ascii String DropletImpact.
Local Open Scope Z_scope.

Lemma string_length_append (a b : string) :
  String.length (a ++ b) = (String.length a + String.length b)%nat.
Proof. induction a as [|ch a IH]; simpl; [reflexivity|now rewrite IH]. Qed.

Lemma append_inv_head (pre a b : string) : (pre ++ a = pre ++ b)%string -> a = b.
Proof.
  induction pre as [|ch pre IH]; simpl; intros H; [exact H|].
  injection H as H. now apply IH.
Qed.

Lemma list_ascii_append (a b : string) :
  list_ascii_of_string (a ++ b)
  = (list_ascii_of_string a ++ list_ascii_of_string b)%list.
Proof. induction a as [|ch a IH]; simpl; [reflexivity|now rewrite IH]. Qed.

Lemma append_inv_tail (a b post : string) : (a ++ post = b ++ post)%string -> a = b.
Proof.
  intros H. apply (f_equal list_ascii_of_string) in H.
  rewrite !list_ascii_append in H. apply app_inv_tail in H.
  apply (f_equal string_of_list_ascii) in H.
  now rewrite !string_of_list_ascii_of_string in H.
Qed.

Lemma digits_length (fuel : nat) :
  forall n acc, (String.length (digits fuel n acc) <= fuel + String.length acc)%nat.
Proof.
  induction fuel as [|fuel IH]; intros n acc; simpl; [lia|].
  destruct (n / 10 =? 0); simpl; [lia|].
  specialize (IH (n / 10) (String (digit_char (n mod 10)) acc)). simpl in IH. lia.
Qed.

Lemma digit_val_char (d : Z) : 0 <= d < 10 -> digit_val (digit_char d) = d.
Proof.
  intros Hd. unfold digit_val, digit_char.
  rewrite nat_ascii_embedding by lia. lia.
Qed.

Lemma parse_digits (fuel : nat) :
  forall n acc, 0 <= n < 10 ^ Z.of_nat fuel ->
    parse_from 0 (digits fuel n acc) = parse_from n acc.
Proof.
  induction fuel as [|fuel IH]; intros n acc Hn.
  - simpl in *. now replace n with 0 by lia.
  - rewrite Nat2Z.inj_succ, Z.pow_succ_r in Hn by lia.
    assert (Hmod : 0 <= n mod 10 < 10) by (apply Z.mod_pos_bound; lia).
    pose proof (Z.div_mod n 10 ltac:(lia)) as Hdm.
    cbn [digits].
    destruct (Z.eqb_spec (n / 10) 0) as [Hz|Hnz].
    + cbn [parse_from]. rewrite digit_val_char by exact Hmod. f_equal. lia.
    + rewrite IH.
      * cbn [parse_from]. rewrite digit_val_char by exact Hmod. f_equal. lia.
      * split; [apply Z.div_pos; lia|].
        apply Z.div_lt_upper_bound; lia.
Qed.

Lemma decimal_nonneg (n : Z) : 0 <= n -> decimal n = digits 10 n "".
Proof.
  intros Hn. unfold decimal. destruct (Z.ltb_spec n 0); [lia|reflexivity].
Qed.

(** ["%d"] prints different numbers differently, in at most ten characters
    when the number is not negative. *)
Lemma decimal_inj (i j : Z) :
  0 <= i <= INT_MAX -> 0 <= j <= INT_MAX -> decimal i = decimal j -> i = j.
Proof.
  unfold INT_MAX. intros Hi Hj H.
  rewrite !decimal_nonneg in H by lia.
  apply (f_equal (parse_from 0)) in H.
  rewrite !parse_digits in H by (simpl; lia). exact H.
Qed.

Lemma decimal_length (n : Z) : 0 <= n -> (String.length (decimal n) <= 10)%nat.
Proof.
  intros Hn. rewrite decimal_nonneg by exact Hn.
  pose proof (digits_length 10 n ""). simpl in *. lia.
Qed.

Lemma interface_name_inj (i j : Z) :
  0 <= i <= INT_MAX -> 0 <= j <= INT_MAX -> interface_name i = interface_name j -> i = j.
Proof.
  intros Hi Hj H. unfold interface_name in H.
  apply append_inv_head, append_inv_tail in H. now apply decimal_inj.
Qed.

Lemma plate_output_name_inj (i j : Z) :
  0 <= i <= INT_MAX -> 0 <= j <= INT_MAX ->
  plate_output_name i = plate_output_name j -> i = j.
Proof.
  intros Hi Hj H. unfold plate_output_name in H.
  apply append_inv_head, append_inv_tail in H. now apply decimal_inj.
Qed.

Lemma gfs_name_inj (i j : Z) :
  0 <= i <= INT_MAX -> 0 <= j <= INT_MAX -> gfs_name i = gfs_name j -> i = j.
Proof.
  intros Hi Hj H. unfold gfs_name in H.
  apply append_inv_head, append_inv_tail in H. now apply decimal_inj.
Qed.

Lemma interface_not_plate (i j : Z) : interface_name i <> plate_output_name j.
Proof. unfold interface_name, plate_output_name. simpl. discriminate. Qed.

Lemma interface_not_gfs (i j : Z) : interface_name i <> gfs_name j.
Proof. unfold interface_name, gfs_name. simpl. discriminate. Qed.

Lemma plate_not_gfs (i j : Z) : plate_output_name i <> gfs_name j.
Proof. unfold plate_output_name, gfs_name. simpl. discriminate. Qed.

(** The buffers of 80 characters are large enough. *)
Lemma sprintf_interface (i : Z) :
  0 <= i -> sprintf_d 80 "interface_" i ".txt" = Some (interface_name i).
Proof.
  intros Hi. unfold sprintf_d. fold (interface_name i).
  destruct (Nat.ltb_spec (String.length (interface_name i)) 80) as [_|H]; [reflexivity|].
  unfold interface_name in H. rewrite !string_length_append in H.
  pose proof (decimal_length Hi). simpl in H. lia.
Qed.

Lemma sprintf_plate (i : Z) :
  0 <= i -> sprintf_d 80 "plate_output_" i ".txt" = Some (plate_output_name i).
Proof.
  intros Hi. unfold sprintf_d. fold (plate_output_name i).
  destruct (Nat.ltb_spec (String.length (plate_output_name i)) 80) as [_|H]; [reflexivity|].
  unfold plate_output_name in H. rewrite !string_length_append in H.
  pose proof (decimal_length Hi). simpl in H. lia.
Qed.

Lemma sprintf_gfs (i : Z) :
  0 <= i -> sprintf_d 80 "gfs_output_" i ".gfs" = Some (gfs_name i).
Proof.
  intros Hi. unfold sprintf_d. fold (gfs_name i).
  destruct (Nat.ltb_spec (String.length (gfs_name i)) 80) as [_|H]; [reflexivity|].
  unfold gfs_name in H. rewrite !string_length_append in H.
  pose proof (decimal_length Hi). simpl in H. lia.
Qed.

Lemma incr_below (n : Z) : n < INT_MAX -> incr n = Some (n + 1).
Proof.
  intros H. unfold incr. destruct (Z.ltb_spec n INT_MAX); [reflexivity|lia].
Qed.

Section OutputEvents.
Variables START_OUTPUT_TIME END_OUTPUT_TIME : Q.

Local Abbreviation window := (in_window START_OUTPUT_TIME END_OUTPUT_TIME).
Local Abbreviation interface_writes := (interface_writes START_OUTPUT_TIME END_OUTPUT_TIME).
Local Abbreviation plate_writes := (plate_writes START_OUTPUT_TIME END_OUTPUT_TIME).
Local Abbreviation gfs_writes := (gfs_writes START_OUTPUT_TIME END_OUTPUT_TIME).

Lemma output_interface_step (t : Q) (st : state) :
  consistent st -> interface_output_no (vars st) < INT_MAX ->
  exists st',
    output_interface START_OUTPUT_TIME END_OUTPUT_TIME t st = Some st'
    /\ consistent st'
    /\ interface_output_no (vars st')
       = interface_output_no (vars st) + (if window t then 1 else 0)
    /\ plate_output_no (vars st') = plate_output_no (vars st)
    /\ gfs_output_no (vars st') = gfs_output_no (vars st)
    /\ List.length (files st')
       = (List.length (files st) + (if window t then 1 else 0))%nat.
Proof.
  intros (Hi & Hp & Hg & Hnd & Hacc) Hlt.
  unfold output_interface. destruct (in_window _ _ t).
  - rewrite sprintf_interface by lia. cbn [obind].
    rewrite incr_below by exact Hlt. cbn [obind].
    eexists. split; [reflexivity|]. cbn [vars files interface_output_no plate_output_no
                                          gfs_output_no].
    split; [|repeat split; try lia; simpl; lia].
    unfold consistent. cbn [vars files interface_output_no plate_output_no gfs_output_no].
    split; [lia|]. split; [lia|]. split; [lia|]. split.
    + constructor; [|exact Hnd]. intros Hin. apply Hacc in Hin.
      destruct Hin as [[i [Hri Hn]]|[[i [Hri Hn]]|[i [Hri Hn]]]].
      * apply interface_name_inj in Hn; lia.
      * now apply interface_not_plate in Hn.
      * now apply interface_not_gfs in Hn.
    + intros name. unfold accounted in *.
      cbn [vars files interface_output_no plate_output_no gfs_output_no]. split.
      * intros [<-|Hin].
        -- left. exists (interface_output_no (vars st)). split; [lia|reflexivity].
        -- apply Hacc in Hin.
           destruct Hin as [[i [Hri Hn]]|[[i [Hri Hn]]|[i [Hri Hn]]]].
           ++ left. exists i. split; [lia|exact Hn].
           ++ right. left. exists i. split; [lia|exact Hn].
           ++ right. right. exists i. split; [lia|exact Hn].
      * intros [[i [Hri Hn]]|[[i [Hri Hn]]|[i [Hri Hn]]]].
        -- destruct (Z.eq_dec i (interface_output_no (vars st))) as [->|Hne].
           ++ left. now symmetry.
           ++ right. apply Hacc. left. exists i. split; [lia|exact Hn].
        -- right. apply Hacc. right. left. exists i. split; [lia|exact Hn].
        -- right. apply Hacc. right. right. exists i. split; [lia|exact Hn].
  - exists st. split; [reflexivity|].
    split; [exact (conj Hi (conj Hp (conj Hg (conj Hnd Hacc))))|].
    repeat split; lia.
Qed.

Lemma output_values_along_plate_step (t : Q) (st : state) :
  consistent st -> plate_output_no (vars st) < INT_MAX ->
  exists st',
    output_values_along_plate START_OUTPUT_TIME END_OUTPUT_TIME t st = Some st'
    /\ consistent st'
    /\ interface_output_no (vars st') = interface_output_no (vars st)
    /\ plate_output_no (vars st')
       = plate_output_no (vars st) + (if window t then 1 else 0)
    /\ gfs_output_no (vars st') = gfs_output_no (vars st)
    /\ List.length (files st')
       = (List.length (files st) + (if window t then 1 else 0))%nat.
Proof.
  intros (Hi & Hp & Hg & Hnd & Hacc) Hlt.
  unfold output_values_along_plate. destruct (in_window _ _ t).
  - rewrite sprintf_plate by lia. cbn [obind].
    rewrite incr_below by exact Hlt. cbn [obind].
    eexists. split; [reflexivity|]. cbn [vars files interface_output_no plate_output_no
                                          gfs_output_no].
    split; [|repeat split; try lia; simpl; lia].
    unfold consistent. cbn [vars files interface_output_no plate_output_no gfs_output_no].
    split; [lia|]. split; [lia|]. split; [lia|]. split.
    + constructor; [|exact Hnd]. intros Hin. apply Hacc in Hin.
      destruct Hin as [[i [Hri Hn]]|[[i [Hri Hn]]|[i [Hri Hn]]]].
      * symmetry in Hn. now apply interface_not_plate in Hn.
      * apply plate_output_name_inj in Hn; lia.
      * now apply plate_not_gfs in Hn.
    + intros name. unfold accounted in *.
      cbn [vars files interface_output_no plate_output_no gfs_output_no]. split.
      * intros [<-|Hin].
        -- right. left. exists (plate_output_no (vars st)). split; [lia|reflexivity].
        -- apply Hacc in Hin.
           destruct Hin as [[i [Hri Hn]]|[[i [Hri Hn]]|[i [Hri Hn]]]].
           ++ left. exists i. split; [lia|exact Hn].
           ++ right. left. exists i. split; [lia|exact Hn].
           ++ right. right. exists i. split; [lia|exact Hn].
      * intros [[i [Hri Hn]]|[[i [Hri Hn]]|[i [Hri Hn]]]].
        -- right. apply Hacc. left. exists i. split; [lia|exact Hn].
        -- destruct (Z.eq_dec i (plate_output_no (vars st))) as [->|Hne].
           ++ left. now symmetry.
           ++ right. apply Hacc. right. left. exists i. split; [lia|exact Hn].
        -- right. apply Hacc. right. right. exists i. split; [lia|exact Hn].
  - exists st. split; [reflexivity|].
    split; [exact (conj Hi (conj Hp (conj Hg (conj Hnd Hacc))))|].
    repeat split; lia.
Qed.

Lemma gfs_output_step (t : Q) (st : state) :
  consistent st -> gfs_output_no (vars st) < INT_MAX ->
  exists st',
    gfs_output START_OUTPUT_TIME END_OUTPUT_TIME t st = Some st'
    /\ consistent st'
    /\ interface_output_no (vars st') = interface_output_no (vars st)
    /\ plate_output_no (vars st') = plate_output_no (vars st)
    /\ gfs_output_no (vars st')
       = gfs_output_no (vars st) + (if window t then 1 else 0)
    /\ List.length (files st')
       = (List.length (files st) + (if window t then 1 else 0))%nat.
Proof.
  intros (Hi & Hp & Hg & Hnd & Hacc) Hlt.
  unfold gfs_output. destruct (in_window _ _ t).
  - rewrite sprintf_gfs by lia. cbn [obind].
    rewrite incr_below by exact Hlt. cbn [obind].
    eexists. split; [reflexivity|]. cbn [vars files interface_output_no plate_output_no
                                          gfs_output_no].
    split; [|repeat split; try lia; simpl; lia].
    unfold consistent. cbn [vars files interface_output_no plate_output_no gfs_output_no].
    split; [lia|]. split; [lia|]. split; [lia|]. split.
    + constructor; [|exact Hnd]. intros Hin. apply Hacc in Hin.
      destruct Hin as [[i [Hri Hn]]|[[i [Hri Hn]]|[i [Hri Hn]]]].
      * symmetry in Hn. now apply interface_not_gfs in Hn.
      * symmetry in Hn. now apply plate_not_gfs in Hn.
      * apply gfs_name_inj in Hn; lia.
    + intros name. unfold accounted in *.
      cbn [vars files interface_output_no plate_output_no gfs_output_no]. split.
      * intros [<-|Hin].
        -- right. right. exists (gfs_output_no (vars st)). split; [lia|reflexivity].
        -- apply Hacc in Hin.
           destruct Hin as [[i [Hri Hn]]|[[i [Hri Hn]]|[i [Hri Hn]]]].
           ++ left. exists i. split; [lia|exact Hn].
           ++ right. left. exists i. split; [lia|exact Hn].
           ++ right. right. exists i. split; [lia|exact Hn].
      * intros [[i [Hri Hn]]|[[i [Hri Hn]]|[i [Hri Hn]]]].
        -- right. apply Hacc. left. exists i. split; [lia|exact Hn].
        -- right. apply Hacc. right. left. exists i. split; [lia|exact Hn].
        -- destruct (Z.eq_dec i (gfs_output_no (vars st))) as [->|Hne].
           ++ left. now symmetry.
           ++ right. apply Hacc. right. right. exists i. split; [lia|exact Hn].
  - exists st. split; [reflexivity|].
    split; [exact (conj Hi (conj Hp (conj Hg (conj Hnd Hacc))))|].
    repeat split; lia.
Qed.


Lemma fire_step (e : event) (st : state) :
  consistent st ->
  interface_output_no (vars st) < INT_MAX ->
  plate_output_no (vars st) < INT_MAX ->
  gfs_output_no (vars st) < INT_MAX ->
  exists st',
    fire START_OUTPUT_TIME END_OUTPUT_TIME e st = Some st'
    /\ consistent st'
    /\ interface_output_no (vars st')
       = interface_output_no (vars st) + Z.of_nat (interface_writes [e])
    /\ plate_output_no (vars st')
       = plate_output_no (vars st) + Z.of_nat (plate_writes [e])
    /\ gfs_output_no (vars st') = gfs_output_no (vars st) + Z.of_nat (gfs_writes [e])
    /\ List.length (files st')
       = (List.length (files st) + interface_writes [e] + plate_writes [e]
          + gfs_writes [e])%nat.
Proof.
  intros Hc Hi Hp Hg.
  unfold DropletImpact.interface_writes, DropletImpact.plate_writes,
    DropletImpact.gfs_writes.
  destruct e as [t|t|t]; cbn [fire filter writes_interface writes_plate writes_gfs].
  - destruct (output_interface_step t Hc Hi) as (st' & Hrun & Hc' & Ei & Ep & Eg & El).
    exists st'.
    split; [exact Hrun|]. split; [exact Hc'|].
    destruct (in_window _ _ t); cbn [List.length] in *; repeat split; lia.
  - destruct (output_values_along_plate_step t Hc Hp)
      as (st' & Hrun & Hc' & Ei & Ep & Eg & El).
    exists st'.
    split; [exact Hrun|]. split; [exact Hc'|].
    destruct (in_window _ _ t); cbn [List.length] in *; repeat split; lia.
  - destruct (gfs_output_step t Hc Hg) as (st' & Hrun & Hc' & Ei & Ep & Eg & El).
    exists st'.
    split; [exact Hrun|]. split; [exact Hc'|].
    destruct (in_window _ _ t); cbn [List.length] in *; repeat split; lia.
Qed.

Lemma filter_length_cons (A : Type) (p : A -> bool) (a : A) (l : list A) :
  List.length (filter p (a :: l))
  = (List.length (filter p [a]) + List.length (filter p l))%nat.
Proof. simpl. destruct (p a); reflexivity. Qed.

Lemma run_spec (schedule : list event) :
  forall st,
    consistent st ->
    interface_output_no (vars st) + Z.of_nat (List.length schedule) <= INT_MAX ->
    plate_output_no (vars st) + Z.of_nat (List.length schedule) <= INT_MAX ->
    gfs_output_no (vars st) + Z.of_nat (List.length schedule) <= INT_MAX ->
    exists st',
      run START_OUTPUT_TIME END_OUTPUT_TIME schedule st = Some st'
      /\ consistent st'
      /\ interface_output_no (vars st')
         = interface_output_no (vars st) + Z.of_nat (interface_writes schedule)
      /\ plate_output_no (vars st')
         = plate_output_no (vars st) + Z.of_nat (plate_writes schedule)
      /\ gfs_output_no (vars st')
         = gfs_output_no (vars st) + Z.of_nat (gfs_writes schedule)
      /\ List.length (files st')
         = (List.length (files st) + interface_writes schedule + plate_writes schedule
            + gfs_writes schedule)%nat.
Proof.
  induction schedule as [|e schedule IH]; intros st Hc Hi Hp Hg.
  - exists st. unfold DropletImpact.interface_writes, DropletImpact.plate_writes,
      DropletImpact.gfs_writes. simpl.
    repeat split; try apply Hc; lia.
  - cbn [List.length] in Hi, Hp, Hg.
    destruct (@fire_step e st Hc ltac:(lia) ltac:(lia) ltac:(lia))
      as (st1 & Hfire & Hc1 & Ei1 & Ep1 & Eg1 & El1).
    assert (Hbi : Z.of_nat (interface_writes [e]) <= 1).
    { unfold DropletImpact.interface_writes. simpl. destruct (writes_interface _ _ e); simpl; lia. }
    assert (Hbp : Z.of_nat (plate_writes [e]) <= 1).
    { unfold DropletImpact.plate_writes. simpl. destruct (writes_plate _ _ e); simpl; lia. }
    assert (Hbg : Z.of_nat (gfs_writes [e]) <= 1).
    { unfold DropletImpact.gfs_writes. simpl. destruct (writes_gfs _ _ e); simpl; lia. }
    destruct (IH st1 Hc1 ltac:(lia) ltac:(lia) ltac:(lia))
      as (st' & Hrun & Hc' & Ei & Ep & Eg & El).
    exists st'. cbn [run]. rewrite Hfire. cbn [obind].
    split; [exact Hrun|]. split; [exact Hc'|].
    unfold DropletImpact.interface_writes, DropletImpact.plate_writes,
      DropletImpact.gfs_writes in *.
    rewrite (filter_length_cons (writes_interface START_OUTPUT_TIME END_OUTPUT_TIME)),
            (filter_length_cons (writes_plate START_OUTPUT_TIME END_OUTPUT_TIME)),
            (filter_length_cons (writes_gfs START_OUTPUT_TIME END_OUTPUT_TIME)).
    repeat split; lia.
Qed.

Lemma initial_consistent : consistent initial.
Proof.
  unfold consistent, initial.
  cbn [vars files interface_output_no plate_output_no gfs_output_no].
  split; [unfold INT_MAX; lia|]. split; [unfold INT_MAX; lia|].
  split; [unfold INT_MAX; lia|]. split; [constructor|].
  intros name. split; [intros []|].
  unfold accounted. cbn [interface_output_no plate_output_no gfs_output_no].
  intros [[i [Hi _]]|[[i [Hi _]]|[i [Hi _]]]]; lia.
Qed.

(** X17: over any schedule of the three output events that is shorter
    than [INT_MAX], nothing undefined happens (no counter overflows, no
    name outgrows its buffer), no file name is used twice, the files
    written are exactly those numbered from 1 up to each counter, and
    each counter ends at one plus the number of its firings inside the
    output window. *)
Theorem output_files_never_clash (schedule : list event) :
  Z.of_nat (List.length schedule) < INT_MAX ->
  exists st,
    run START_OUTPUT_TIME END_OUTPUT_TIME schedule initial = Some st
    /\ NoDup (files st)
    /\ (forall name, In name (files st) <-> accounted (vars st) name)
    /\ interface_output_no (vars st) = 1 + Z.of_nat (interface_writes schedule)
    /\ plate_output_no (vars st) = 1 + Z.of_nat (plate_writes schedule)
    /\ gfs_output_no (vars st) = 1 + Z.of_nat (gfs_writes schedule)
    /\ List.length (files st)
       = (interface_writes schedule + plate_writes schedule + gfs_writes schedule)%nat.
Proof.
  intros Hlen.
  assert (Hb : 1 + Z.of_nat (List.length schedule) <= INT_MAX) by lia.
  destruct (@run_spec schedule initial initial_consistent Hb Hb Hb)
    as (st & Hrun & Hc & Ei & Ep & Eg & El).
  exists st. split; [exact Hrun|].
  destruct Hc as (_ & _ & _ & Hnd & Hacc).
  split; [exact Hnd|]. split; [exact Hacc|].
  cbn [initial vars files interface_output_no plate_output_no gfs_output_no List.length]
    in Ei, Ep, Eg, El.
  repeat split; assumption.
Qed.
End OutputEvents.
End SimulationFacts.

Section SimulationExamples.
Import Ascii String.

Example run_example :
  option_map DropletImpact.files
    (DropletImpact.run 0 1
       [DropletImpact.OutputInterface (1 # 2); DropletImpact.GfsOutput (1 # 2);
        DropletImpact.OutputInterface 2; DropletImpact.OutputInterface 1]
       DropletImpact.initial)
  = Some ["interface_2.txt"; "gfs_output_1.gfs"; "interface_1.txt"]%string.
Proof. reflexivity. Qed.

Example decimal_examples :
  map DropletImpact.decimal [0; 7; 10; 2147483647; -12]%Z
  = ["0"; "7"; "10"; "2147483647"; "-12"]%string.
Proof. reflexivity. Qed.
End SimulationExamples.

Lemma output_files_never_clash_witness :
  (Z.of_nat (length [DropletImpact.OutputInterface (1 # 2); DropletImpact.GfsOutput (1 # 2)])
   < DropletImpact.INT_MAX)%Z
  /\ exists st,
       DropletImpact.run 0 1
         [DropletImpact.OutputInterface (1 # 2); DropletImpact.GfsOutput (1 # 2)]
         DropletImpact.initial = Some st
       /\ NoDup (DropletImpact.files st).
Proof.
  assert (H : (Z.of_nat (length [DropletImpact.OutputInterface (1 # 2);
                                 DropletImpact.GfsOutput (1 # 2)])
               < DropletImpact.INT_MAX)%Z) by reflexivity.
  split; [exact H|].
  destruct (@output_files_never_clash 0%Q 1%Q _ H) as (st & Hrun & Hnd & _).
  exists st. split; assumption.
Defined.

Section MainFacts.
Import DropletImpact.
Local Open Scope Q_scope.

(** X16: with the droplet starting above the plate, the time of impact
    is [DROP_CENTRE - DROP_RADIUS] and is not negative; the Wagner end
    time lies after [IMPACT_TIME + 1/3]; [MAX_TIME] exceeds neither the
    hard limit nor the Wagner end time; and 1/3 after impact is when the
    turnover position [d] of [wagner_pressure] equals [DROP_RADIUS], as
    the comment in [main] says. *)
Theorem simulation_end_time (DROP_CENTRE HARD_MAX_TIME : Q) :
  DROP_RADIUS <= DROP_CENTRE ->
  IMPACT_TIME DROP_CENTRE == DROP_CENTRE - DROP_RADIUS
  /\ 0 <= IMPACT_TIME DROP_CENTRE
  /\ IMPACT_TIME DROP_CENTRE + 1 / 3 < wagner_max_time DROP_CENTRE
  /\ MAX_TIME DROP_CENTRE HARD_MAX_TIME <= HARD_MAX_TIME
  /\ MAX_TIME DROP_CENTRE HARD_MAX_TIME <= wagner_max_time DROP_CENTRE
  /\ Matlab.d (RtoC (Q2R (1 / 3))) (RtoC (Q2R 0)) = RtoC (Q2R DROP_RADIUS).
Proof.
  intros Hc.
  assert (Hit : IMPACT_TIME DROP_CENTRE == DROP_CENTRE - DROP_RADIUS).
  { unfold IMPACT_TIME, DROP_VEL. field. }
  assert (Hpos : 0 <= IMPACT_TIME DROP_CENTRE) by (rewrite Hit; Lqa.lra).
  split; [exact Hit|]. split; [exact Hpos|]. split.
  - unfold wagner_max_time.
    assert (H3 : 0 < 1 / 3) by reflexivity.
    set (third := 1 / 3) in *. Lqa.lra.
  - split; [|split].
    + unfold MAX_TIME, min. destruct (Qlt_le_dec _ _); Lqa.lra.
    + unfold MAX_TIME, min. destruct (Qlt_le_dec _ _); Lqa.lra.
    + assert (H13 : Q2R (1 / 3) = (1 / 3)%R) by (unfold Q2R; simpl; lra).
      assert (H0 : Q2R 0 = 0%R) by (unfold Q2R; simpl; lra).
      assert (H1 : Q2R DROP_RADIUS = 1%R) by (unfold Q2R, DROP_RADIUS; simpl; lra).
      rewrite H13, H0, H1.
      assert (Hts : (0 < 1 / 3 - 0)%R) by lra.
      rewrite (d_real Hts). unfold spec_d. f_equal.
      replace (3 * (1 / 3 - 0))%R with 1%R by lra. apply sqrt_1.
Qed.

Lemma Qlt_bool_iff (a b : Q) : Qlt_bool a b = true <-> a < b.
Proof.
  unfold Qlt_bool. rewrite negb_true_iff.
  destruct (Qle_bool b a) eqn:H.
  - apply Qle_bool_iff in H. split; [discriminate|]. intros Hlt. Lqa.lra.
  - split; [|reflexivity]. intros _.
    apply Qnot_le_lt. intros Hle. apply Qle_bool_iff in Hle. congruence.
Qed.

(** X18: on the surface of the droplet the condition handed to [refine]
    holds as long as the level is below [MAXLEVEL]; and wherever it
    holds, the level is below [MAXLEVEL] and the point lies in a thin
    band around the surface. *)
Theorem droplet_surface_is_refined (DROP_CENTRE x y : Q) (level : Z) :
  (droplet_function DROP_CENTRE x y == 0 ->
     refine_condition DROP_CENTRE x y level = (level <? MAXLEVEL)%Z)
  /\ (refine_condition DROP_CENTRE x y level = true ->
      (level < MAXLEVEL)%Z
      /\ - (1025 # 10000) < droplet_function DROP_CENTRE x y < 975 # 10000).
Proof.
  unfold refine_condition, droplet_function, sq, DROP_RADIUS, DROP_REFINED_WIDTH.
  set (rho2 := (x - DROP_CENTRE) * (x - DROP_CENTRE) + y * y).
  split.
  - intros H0.
    assert (Hrho : rho2 == 1).
    { unfold rho2.
      setoid_replace ((x - DROP_CENTRE) * (x - DROP_CENTRE) + y * y)
        with (1 - (- ((x - DROP_CENTRE) * (x - DROP_CENTRE)) - y * y + 1 * 1)) by ring.
      rewrite H0. reflexivity. }
    assert (H1 : Qlt_bool rho2 ((1 + (5 # 100)) * (1 + (5 # 100))) = true).
    { apply Qlt_bool_iff. rewrite Hrho. reflexivity. }
    assert (H2 : Qlt_bool ((1 - (5 # 100)) * (1 - (5 # 100))) rho2 = true).
    { apply Qlt_bool_iff. rewrite Hrho. reflexivity. }
    now rewrite H1, H2.
  - intros H. apply andb_true_iff in H. destruct H as [H Hl].
    apply andb_true_iff in H. destruct H as [H1 H2].
    apply Qlt_bool_iff in H1, H2. apply Z.ltb_lt in Hl.
    split; [exact Hl|].
    assert (E1 : (1 + (5 # 100)) * (1 + (5 # 100)) == 11025 # 10000) by reflexivity.
    assert (E2 : (1 - (5 # 100)) * (1 - (5 # 100)) == 9025 # 10000) by reflexivity.
    rewrite E1 in H1. rewrite E2 in H2.
    unfold rho2 in H1, H2. clear rho2 E1 E2. revert H1 H2.
    generalize ((x - DROP_CENTRE) * (x - DROP_CENTRE)) (y * y).
    intros a b H1 H2. split; Lqa.lra.
Qed.
End MainFacts.

Lemma simulation_end_time_witness :
  (DropletImpact.DROP_RADIUS <= 12 # 10)%Q
  /\ (DropletImpact.MAX_TIME (12 # 10) 1 <= 1)%Q.
Proof.
  assert (H : (DropletImpact.DROP_RADIUS <= 12 # 10)%Q) by discriminate.
  split; [exact H|].
  exact (proj1 (proj2 (proj2 (proj2 (@simulation_end_time (12 # 10) 1 H))))).
Defined.

Lemma droplet_surface_is_refined_witness :
  (DropletImpact.droplet_function (12 # 10) (22 # 10) 0 == 0)%Q
  /\ DropletImpact.refine_condition (12 # 10) (22 # 10) 0 5 = true.
Proof.
  assert (H : (DropletImpact.droplet_function (12 # 10) (22 # 10) 0 == 0)%Q) by reflexivity.
  split; [exact H|].
  exact (proj1 (@droplet_surface_is_refined (12 # 10) (22 # 10) 0 5) H).
Defined.
